(** * Founders Club request and approval workflow

    A shallow embedding of the two route handlers of
    [src/app/api/founders/request/route.ts]:

      - the request route: [POST] takes in a membership request, [GET]
        reports the status of the latest request of an address;
      - the approval route: [POST] issues an invite code for a pending
        request.

    The handlers are written in a small monad over the data store, with
    early [return]s and exceptions as the JavaScript has them.  The
    JavaScript primitives they rely on ([trim], [toLowerCase], [charAt],
    the regular expression of the address check, the local-time methods of
    [Date]) are embedded next to them.

    Modelling choices.
      - Strings are sequences of code units below 256 (Latin-1 text).
      - The hosted data store is outside the repository.  It is modelled as
        two tables, each a finite map from the server-generated primary key
        to the row, with no constraint besides the primary key.  Every call
        to it may fail; whether it does is given to the handler from
        outside, call by call, and a call that fails leaves the tables as
        they were.  The same holds for the e-mail service, the clock, the
        time zone of the process and [Math.random()].
      - The text of the e-mail is not modelled. *)

From Stdlib Require Import Ascii String ZArith QArith Qround.
From stdpp Require Import gmap strings list fin_maps.

Open Scope Z_scope.
Open Scope string_scope.

(* ===================================================================== *)
(** ** JavaScript strings *)
(* ===================================================================== *)

Module Js.

(** Code units are compared through their numeric value. *)
Definition code (c : ascii) : N := N_of_ascii c.

(** [WhiteSpace] and [LineTerminator] code units below 256: TAB, LF, VT,
    FF, CR, SP and NBSP.  This is the set both [\s] and [trim] use. *)
Definition isWhiteSpace (c : ascii) : bool :=
  let n := code c in
  ((9 <=? n) && (n <=? 13) || (n =? 32) || (n =? 160))%N.

(** [String.prototype.toLowerCase], one code unit at a time: A-Z and the
    Latin-1 capitals U+00C0..U+00DE (without the multiplication sign). *)
Definition lowerChar (c : ascii) : ascii :=
  let n := code c in
  if ((65 <=? n) && (n <=? 90)
      || (192 <=? n) && (n <=? 222) && negb (n =? 215))%N
  then ascii_of_N (n + 32) else c.

Fixpoint toLowerCase (s : string) : string :=
  match s with
  | EmptyString => EmptyString
  | String c s' => String (lowerChar c) (toLowerCase s')
  end.

(** [trimStart]: drop the leading white space. *)
Fixpoint trimStart (s : string) : string :=
  match s with
  | EmptyString => EmptyString
  | String c s' => if isWhiteSpace c then trimStart s' else s
  end.

(** [trimEnd]: drop the trailing white space. *)
Fixpoint trimEnd (s : string) : string :=
  match s with
  | EmptyString => EmptyString
  | String c s' =>
      match trimEnd s' with
      | EmptyString => if isWhiteSpace c then EmptyString else String c EmptyString
      | t => String c t
      end
  end.

(** [String.prototype.trim]. *)
Definition trim (s : string) : string := trimEnd (trimStart s).

(** [s.charAt(k)]: the one-unit string at index [k], or the empty string
    when [k] is out of range. *)
Definition charAt (s : string) (k : Z) : string :=
  if (k <? 0)%Z then EmptyString
  else match String.get (Z.to_nat k) s with
       | Some c => String c EmptyString
       | None => EmptyString
       end.

(** Every code unit of the string satisfies [p]. *)
Fixpoint allChars (p : ascii -> bool) (s : string) : bool :=
  match s with
  | EmptyString => true
  | String c s' => p c && allChars p s'
  end.

(** *** Regular expressions

    The fragment of the regular-expression language the handlers use:
    character classes, concatenation, alternation and repetition.  A
    pattern written between [^] and [$] is tested against the whole
    input, which is what [matches] does. *)
Inductive regex : Type :=
| Void : regex
| Eps : regex
| Class (p : ascii -> bool) : regex
| Cat (r1 r2 : regex) : regex
| Alt (r1 r2 : regex) : regex
| Star (r : regex) : regex.

(** [r+] *)
Definition Plus (r : regex) : regex := Cat r (Star r).

(** A literal character. *)
Definition Chr (c : ascii) : regex := Class (Ascii.eqb c).

Fixpoint nullable (r : regex) : bool :=
  match r with
  | Void => false
  | Eps => true
  | Class _ => false
  | Cat r1 r2 => nullable r1 && nullable r2
  | Alt r1 r2 => nullable r1 || nullable r2
  | Star _ => true
  end.

(** Brzozowski derivative of [r] by the code unit [c]. *)
Fixpoint deriv (c : ascii) (r : regex) : regex :=
  match r with
  | Void => Void
  | Eps => Void
  | Class p => if p c then Eps else Void
  | Cat r1 r2 =>
      if nullable r1
      then Alt (Cat (deriv c r1) r2) (deriv c r2)
      else Cat (deriv c r1) r2
  | Alt r1 r2 => Alt (deriv c r1) (deriv c r2)
  | Star r1 => Cat (deriv c r1) (Star r1)
  end.

(** [/^r$/.test(s)] *)
Fixpoint matches (r : regex) (s : string) : bool :=
  match s with
  | EmptyString => nullable r
  | String c s' => matches (deriv c r) s'
  end.

End Js.

(* ===================================================================== *)
(** ** Values, responses and the handler monad *)
(* ===================================================================== *)

(** A field of a parsed JSON body, as far as the handlers can observe it.
    A value that is neither absent, [null] nor a string (a boolean, a
    number, an array, an object) is kept as [JOther] with the two things
    that are observed of it: its truthiness and the result of [String(v)]
    ([None] when that conversion throws). *)
Inductive jsval : Type :=
| JUndefined : jsval
| JNull : jsval
| JStr (s : string) : jsval
| JOther (truthy : bool) (text : option string) : jsval.

Inductive JsError : Type :=
| SyntaxError : JsError
| TypeError : JsError
| RangeError : JsError
| MailError : JsError.

(** The JSON documents the handlers answer with. *)
Inductive Json : Type :=
| Failure (error : string) : Json
| Submitted (message : string) (requestId : N) : Json
| NoRequest : Json
| HasRequest (status : string) (createdAt : Z) : Json
| Approved (code : string) (expiresAt : Z) (message : string) : Json.

(** [NextResponse.json(body, { status })] *)
Record Response : Type := json { body : Json; http_status : Z }.

(** [NextResponse.json(body)] answers with status 200. *)
Definition json_ok (b : Json) : Response := json b 200.

(** Rows of [founders_requests]; the primary key [id] is the key of the
    table. *)
Module FoundersRequest.
Record t : Type := {
  full_name : string;
  email : string;
  phone : string;
  profession : string;
  note : option string;
  status : string;
  created_at : Z
}.
End FoundersRequest.

(** Rows of [founders_invite_codes]; again [id] is the key of the table. *)
Module InviteCode.
Record t : Type := {
  code : string;
  email : string;
  phone : string;
  request_id : N;
  expires_at : Z
}.
End InviteCode.

(** The hosted data store: two tables, each a finite map from the
    server-generated primary key to the row. *)
Record Store : Type := {
  founders_requests : gmap N FoundersRequest.t;
  founders_invite_codes : gmap N InviteCode.t
}.

Definition empty_store : Store :=
  {| founders_requests := ∅; founders_invite_codes := ∅ |}.

(** How a piece of handler code completes: with a value, by an early
    [return] of a response, or by throwing. *)
Inductive Completion (A : Type) : Type :=
| Normal (a : A) : Completion A
| Return (r : Response) : Completion A
| Throw (e : JsError) : Completion A.
Arguments Normal {A} a.
Arguments Return {A} r.
Arguments Throw {A} e.

(** Handler code runs against the store. *)
Definition M (A : Type) : Type := Store -> Completion A * Store.

Definition ret {A} (a : A) : M A := fun st => (Normal a, st).

Definition bind {A B} (m : M A) (k : A -> M B) : M B :=
  fun st =>
    match m st with
    | (Normal a, st') => k a st'
    | (Return r, st') => (Return r, st')
    | (Throw e, st') => (Throw e, st')
    end.

Notation "'do' x <- m ; k" := (bind m (fun x => k))
  (at level 10, x name, m at level 100, k at level 200).
Notation "'exec' m ; k" := (bind m (fun _ => k))
  (at level 10, m at level 100, k at level 200).

(** [return r;] *)
Definition respond {A} (r : Response) : M A := fun st => (Return r, st).

(** [throw e] *)
Definition throw {A} (e : JsError) : M A := fun st => (Throw e, st).

(** [if (c) { return r; }] *)
Definition return_if (c : bool) (r : Response) : M unit :=
  if c then respond r else ret tt.

(** [try { m } catch (e) { h }] *)
Definition try_catch {A} (m : M A) (h : JsError -> M A) : M A :=
  fun st =>
    match m st with
    | (Throw e, st') => h e st'
    | other => other
    end.

(** The store as the running code sees it. *)
Definition get_store : M Store := fun st => (Normal st, st).

(** A whole handler: [try { m } catch (error) { return r500; }]. *)
Definition run_handler (m : M Response) (r500 : Response) (st : Store)
  : Response * Store :=
  match try_catch m (fun _ => respond r500) st with
  | (Normal r, st') => (r, st')
  | (Return r, st') => (r, st')
  | (Throw _, st') => (r500, st')
  end.

(** *** JavaScript operations on body fields *)

(** [!!v] *)
Definition truthy (v : jsval) : bool :=
  match v with
  | JUndefined => false
  | JNull => false
  | JStr s => negb (String.eqb s "")
  | JOther t _ => t
  end.

(** [String(v)], the conversion [RegExp.prototype.test] applies to its
    argument. *)
Definition ToString (v : jsval) : M string :=
  match v with
  | JUndefined => ret "undefined"
  | JNull => ret "null"
  | JStr s => ret s
  | JOther _ (Some s) => ret s
  | JOther _ None => throw TypeError
  end.

(** [v.f()] for a string method [f]: only strings have it. *)
Definition call_string_method (f : string -> string) (v : jsval) : M string :=
  match v with
  | JStr s => ret (f s)
  | _ => throw TypeError
  end.

(** [v?.trim() || null] *)
Definition optional_trim_or_null (v : jsval) : M (option string) :=
  match v with
  | JUndefined => ret None
  | JNull => ret None
  | JStr s => let t := Js.trim s in
              ret (if String.eqb t "" then None else Some t)
  | JOther _ _ => throw TypeError
  end.

(* ===================================================================== *)
(** ** The data-store client *)
(* ===================================================================== *)

(** What a call to the store resolves to: [{ data, error }]. *)
Record PostgrestResponse (A : Type) : Type := {
  data : option A;
  error : option string
}.
Arguments data {A} _.
Arguments error {A} _.

Definition failed {A} (msg : string) : PostgrestResponse A :=
  {| data := None; error := Some msg |}.

Definition succeeded {A} (a : A) : PostgrestResponse A :=
  {| data := Some a; error := None |}.

(** [.single()]: the one selected row; an error when the call fails and
    when it selects no row or several. *)
Definition single {A} (fails : bool) (selected : list A) : PostgrestResponse A :=
  if fails then failed "request failed"
  else match selected with
       | [x] => succeeded x
       | _ => failed "PGRST116"
       end.

(** The rows of a table with their keys. *)
Definition rows {A} (t : gmap N A) : list (N * A) := map_to_list t.

(** The key the store gives to the next row: one more than the largest key
    in use, so keys start at 1. *)
Definition next_id {A} (t : gmap N A) : N :=
  N.succ (foldr N.max 0%N (rows t).*1).

(** [.from('founders_requests').select(..).eq('email', e).eq('status', s)] *)
Definition requests_by_email_status (e s : string) (st : Store)
  : list (N * FoundersRequest.t) :=
  filter (fun kr => FoundersRequest.email kr.2 = e ∧ FoundersRequest.status kr.2 = s) (rows (founders_requests st)).

(** [.from('founders_requests').select(..).eq('email', e)] *)
Definition requests_by_email (e : string) (st : Store)
  : list (N * FoundersRequest.t) :=
  filter (fun kr => FoundersRequest.email kr.2 = e) (rows (founders_requests st)).

(** [.from('founders_requests').select('*').eq('id', i)] *)
Definition requests_by_id (i : N) (st : Store) : list (N * FoundersRequest.t) :=
  match founders_requests st !! i with
  | Some r => [(i, r)]
  | None => []
  end.

(** [.from('founders_invite_codes').select('id').eq('code', c)] *)
Definition codes_by_code (c : string) (st : Store) : list (N * InviteCode.t) :=
  filter (fun kr => InviteCode.code kr.2 = c) (rows (founders_invite_codes st)).

(** [.order('created_at', { ascending: false }).limit(1)]: the row created
    last (of two rows created at the same instant, the one met first). *)
Definition latest (l : list (N * FoundersRequest.t)) : list (N * FoundersRequest.t) :=
  match l with
  | [] => []
  | x :: l' =>
      [foldl (fun best kr =>
                if (FoundersRequest.created_at best.2 <? FoundersRequest.created_at kr.2)%Z then kr else best)
             x l']
  end.

(** [.insert(row).select().single()] on [founders_requests]. *)
Definition insert_request (fails : bool) (r : FoundersRequest.t)
  : M (PostgrestResponse (N * FoundersRequest.t)) :=
  fun st =>
    if fails then (Normal (failed "insert failed"), st)
    else
      let i := next_id (founders_requests st) in
      (Normal (succeeded (i, r)),
       {| founders_requests := <[i := r]> (founders_requests st);
          founders_invite_codes := founders_invite_codes st |}).

(** [.insert(row)] on [founders_invite_codes]. *)
Definition insert_code (fails : bool) (c : InviteCode.t)
  : M (PostgrestResponse unit) :=
  fun st =>
    if fails then (Normal (failed "insert failed"), st)
    else
      let i := next_id (founders_invite_codes st) in
      (Normal (succeeded tt),
       {| founders_requests := founders_requests st;
          founders_invite_codes := <[i := c]> (founders_invite_codes st) |}).

Definition set_status (s : string) (r : FoundersRequest.t) : FoundersRequest.t :=
  let 'FoundersRequest.Build_t full_name email phone profession note _ created_at := r in
  FoundersRequest.Build_t full_name email phone profession note s created_at.

(** [.update({ status: s }).eq('id', i)] on [founders_requests]. *)
Definition update_status (fails : bool) (s : string) (i : N)
  : M (PostgrestResponse unit) :=
  fun st =>
    if fails then (Normal (failed "update failed"), st)
    else
      (Normal (succeeded tt),
       {| founders_requests := alter (set_status s) i (founders_requests st);
          founders_invite_codes := founders_invite_codes st |}).

(* ===================================================================== *)
(** ** [POST /founders/request] and [GET /founders/request] *)
(* ===================================================================== *)

Module RequestRoute.

(** The parsed request body, destructured as
    [{ fullName, email, phone, profession, note }]. *)
Record Body : Type := {
  fullName : jsval;
  email : jsval;
  phone : jsval;
  profession : jsval;
  note : jsval
}.

(** What the surroundings contribute to one intake call: whether each of
    the three calls to the store fails, and the instant the store stamps
    a new row with ([created_at] defaults to the time of insertion). *)
Record Env : Type := {
  pending_check_fails : bool;
  approved_check_fails : bool;
  insert_fails : bool;
  clock : Z
}.

Definition is_not_white_or_at (c : ascii) : bool :=
  negb (Js.isWhiteSpace c) && negb (Ascii.eqb c "@").

(** [/^[^\s@]+@[^\s@]+\.[^\s@]+$/] *)
Definition emailRegex : Js.regex :=
  Js.Cat (Js.Plus (Js.Class is_not_white_or_at))
    (Js.Cat (Js.Chr "@")
       (Js.Cat (Js.Plus (Js.Class is_not_white_or_at))
          (Js.Cat (Js.Chr ".")
             (Js.Plus (Js.Class is_not_white_or_at))))).

(** [await request.json()]: throws when the body is not JSON that can be
    destructured ([None]). *)
Definition request_json (raw : option Body) : M Body :=
  match raw with
  | Some b => ret b
  | None => throw SyntaxError
  end.

Definition POST_body (env : Env) (raw : option Body) : M Response :=
  do b <- request_json raw;
  (* Validate required fields *)
  exec return_if (negb (truthy (fullName b)) || negb (truthy (email b))
                  || negb (truthy (phone b)) || negb (truthy (profession b)))
         (json (Failure "All required fields must be provided") 400);
  (* Validate email format *)
  do shown <- ToString (email b);
  exec return_if (negb (Js.matches emailRegex shown))
         (json (Failure "Invalid email format") 400);
  (* Check for existing pending request with same email *)
  do lowered <- call_string_method Js.toLowerCase (email b);
  do st <- get_store;
  let existingRequest :=
    data (single (pending_check_fails env)
            (requests_by_email_status lowered "pending" st)) in
  exec return_if (bool_decide (is_Some existingRequest))
         (json (Failure "You already have a pending request. Please wait for approval.") 400);
  (* Check for existing approved request (already a member) *)
  do lowered' <- call_string_method Js.toLowerCase (email b);
  let approvedRequest :=
    data (single (approved_check_fails env)
            (requests_by_email_status lowered' "approved" st)) in
  exec return_if (bool_decide (is_Some approvedRequest))
         (json (Failure "This email is already approved. Please check your email for the invite code.") 400);
  (* Insert new request *)
  do full_name <- call_string_method Js.trim (fullName b);
  do email <- call_string_method (fun s => Js.trim (Js.toLowerCase s)) (email b);
  do phone <- call_string_method Js.trim (phone b);
  do profession <- call_string_method Js.trim (profession b);
  do note <- optional_trim_or_null (note b);
  do inserted <- insert_request (insert_fails env)
                   {| FoundersRequest.full_name := full_name;
                      FoundersRequest.email := email;
                      FoundersRequest.phone := phone;
                      FoundersRequest.profession := profession;
                      FoundersRequest.note := note;
                      FoundersRequest.status := "pending";
                      FoundersRequest.created_at := clock env |};
  exec return_if (bool_decide (is_Some (error inserted)))
         (json (Failure "Failed to submit request. Please try again.") 500);
  match data inserted with
  | Some newRequest =>
      ret (json_ok (Submitted "Request submitted successfully" newRequest.1))
  | None => throw TypeError
  end.

Definition POST (env : Env) (raw : option Body) (st : Store) : Response * Store :=
  run_handler (POST_body env raw)
    (json (Failure "An unexpected error occurred") 500) st.

(** [searchParams.get('email')] is a string or [null]. *)
Definition GET_body (select_fails : bool) (email : option string) : M Response :=
  match email with
  | None | Some "" =>
      respond (json (Failure "Email is required") 400)
  | Some email =>
      do st <- get_store;
      if select_fails
      then respond (json (Failure "Failed to check status") 500)
      else
        match latest (requests_by_email (Js.toLowerCase email) st) with
        | [] => ret (json_ok NoRequest)
        | r :: _ =>
            ret (json_ok (HasRequest (FoundersRequest.status r.2)
                            (FoundersRequest.created_at r.2)))
        end
  end.

Definition GET (select_fails : bool) (email : option string) (st : Store)
  : Response * Store :=
  run_handler (GET_body select_fails email)
    (json (Failure "An unexpected error occurred") 500) st.

End RequestRoute.

(* ===================================================================== *)
(** ** JavaScript dates *)
(* ===================================================================== *)

Module Date.

Definition msPerSecond : Z := 1000.
Definition msPerMinute : Z := 60000.
Definition msPerHour : Z := 3600000.
Definition msPerDay : Z := 86400000.

(** The local time zone of the process: its offset from UTC in
    milliseconds, at an instant given in UTC ([LocalTZA(t, true)]) and at
    a local time ([LocalTZA(t, false)]). *)
Record TimeZone : Type := {
  offset_at_utc : Z -> Z;
  offset_at_local : Z -> Z
}.

Definition LocalTime (tz : TimeZone) (t : Z) : Z := t + offset_at_utc tz t.
Definition UTC (tz : TimeZone) (t : Z) : Z := t - offset_at_local tz t.

Definition Day (t : Z) : Z := t / msPerDay.
Definition HourFromTime (t : Z) : Z := (t / msPerHour) mod 24.
Definition MinFromTime (t : Z) : Z := (t / msPerMinute) mod 60.
Definition SecFromTime (t : Z) : Z := (t / msPerSecond) mod 60.
Definition msFromTime (t : Z) : Z := t mod msPerSecond.

Definition MakeTime (hour min sec ms : Z) : Z :=
  hour * msPerHour + min * msPerMinute + sec * msPerSecond + ms.
Definition MakeDate (day time : Z) : Z := day * msPerDay + time.

(** A time value beyond the range of dates is not a date ([NaN]). *)
Definition TimeClip (t : Z) : option Z :=
  if (8640000000000000 <? Z.abs t)%Z then None else Some t.

(** A [Date] object holds a time value: milliseconds since the epoch, or
    [None] for an invalid date. *)
Definition t : Type := option Z.

(** [new Date()] at the instant [now]. *)
Definition new (now : Z) : t := Some now.

(** [d.getHours()]: the hour of the day in local time. *)
Definition getHours (tz : TimeZone) (d : t) : option Z :=
  match d with
  | Some tv => Some (HourFromTime (LocalTime tz tv))
  | None => None
  end.

(** [d.setHours(hour)]: replaces the hour field of the local time. *)
Definition setHours (tz : TimeZone) (d : t) (hour : option Z) : t :=
  match d, hour with
  | Some tv, Some h =>
      let tl := LocalTime tz tv in
      let date := MakeDate (Day tl)
                    (MakeTime h (MinFromTime tl) (SecFromTime tl) (msFromTime tl)) in
      TimeClip (UTC tz date)
  | _, _ => None
  end.

(** [d.toISOString()].  The ISO text of a valid date is written here as
    the time value it denotes; an invalid date throws. *)
Definition toISOString (d : t) : M Z :=
  match d with
  | Some tv => ret tv
  | None => throw RangeError
  end.

(** A zone whose offset never changes. *)
Definition fixed_zone (offset : Z) : TimeZone :=
  {| offset_at_utc := fun _ => offset; offset_at_local := fun _ => offset |}.

(** A zone that moves from [before] to [after] at the UTC instant
    [change].  A local time the change skips or repeats is read with the
    offset in force before the change. *)
Definition shifting_zone (change before after : Z) : TimeZone :=
  {| offset_at_utc := fun tv => if (tv <? change)%Z then before else after;
     offset_at_local := fun tl =>
       if (tl <? change + Z.max before after)%Z then before else after |}.

End Date.

(* ===================================================================== *)
(** ** [POST /founders/approve] *)
(* ===================================================================== *)

Module ApproveRoute.

(** The parsed body [{ requestId }]; [None] is an absent or [null] id. *)
Record Body : Type := { requestId : option N }.

(** What [sendOrderEmail] does with the message. *)
Inductive MailOutcome : Type :=
| Delivered : MailOutcome
| Refused (error : string) : MailOutcome
| Crashed : MailOutcome.

(** What the surroundings contribute to one approval call: the outcome of
    each call to the store (the look-ups of the uniqueness loop are
    numbered from 0), the values [Math.random()] returns in order, the
    clock and the zone of the process, and the fate of the e-mail. *)
Record Env : Type := {
  fetch_fails : bool;
  random : nat -> Q;
  lookup_fails : nat -> bool;
  now : Z;
  zone : Date.TimeZone;
  insert_fails : bool;
  update_fails : bool;
  mail : MailOutcome
}.

Definition chars : string := "ABCDEFGHJKLMNPQRSTUVWXYZ23456789".

Definition Math_floor (q : Q) : Z := Qfloor q.

(** The body of [for (let i = 0; i < 8; i++)], [n] rounds of it; [k]
    counts the calls to [Math.random()] made so far. *)
Fixpoint append_random_chars (n : nat) (random : nat -> Q) (code : string) (k : nat)
  : string * nat :=
  match n with
  | O => (code, k)
  | S n' =>
      let index :=
        Math_floor (random k * inject_Z (Z.of_nat (String.length chars))) in
      append_random_chars n' random (code ++ Js.charAt chars index) (S k)
  end.

Definition generateInviteCode (random : nat -> Q) (k : nat) : string * nat :=
  let '(code, k') := append_random_chars 8 random "" k in
  ("FC-" ++ code, k').

Definition maxAttempts : nat := 10.

(** [while (attempts < maxAttempts) { .. }], entered with
    [attempts = maxAttempts - remaining].  The result is the candidate,
    the number of attempts and the number of random draws at the exit. *)
Fixpoint ensure_unique (remaining : nat) (env : Env) (st : Store)
    (inviteCode : string) (k : nat) : string * nat * nat :=
  match remaining with
  | O => (inviteCode, maxAttempts, k)
  | S remaining' =>
      let attempts := (maxAttempts - remaining)%nat in
      let existing :=
        data (single (lookup_fails env attempts) (codes_by_code inviteCode st)) in
      match existing with
      | None => (inviteCode, attempts, k)
      | Some _ =>
          let '(inviteCode', k') := generateInviteCode (random env) k in
          ensure_unique remaining' env st inviteCode' k'
      end
  end.

Record MailResult : Type := { success : bool; mail_error : option string }.

(** [await sendOrderEmail({ to, subject, html })] *)
Definition sendOrderEmail (env : Env) (to : string) (inviteCode : string)
    (expiresAt : Date.t) : M MailResult :=
  match mail env with
  | Delivered => ret {| success := true; mail_error := None |}
  | Refused e => ret {| success := false; mail_error := Some e |}
  | Crashed => throw MailError
  end.

Definition request_json (raw : option Body) : M Body :=
  match raw with
  | Some b => ret b
  | None => throw SyntaxError
  end.

Definition POST_body (env : Env) (raw : option Body) : M Response :=
  do b <- request_json raw;
  match requestId b with
  | None | Some 0%N =>
      respond (json (Failure "Request ID is required") 400)
  | Some requestId =>
      (* Fetch the request *)
      do st <- get_store;
      let fetched := single (fetch_fails env) (requests_by_id requestId st) in
      match error fetched, data fetched with
      | None, Some foundersRequest =>
          exec return_if
                 (negb (String.eqb (FoundersRequest.status foundersRequest.2) "pending"))
                 (json (Failure "Request has already been processed") 400);
          (* Generate unique invite code *)
          let '(inviteCode, k) := generateInviteCode (random env) 0 in
          let '(inviteCode, attempts, _) :=
            ensure_unique maxAttempts env st inviteCode k in
          exec return_if (maxAttempts <=? attempts)%nat
                 (json (Failure "Failed to generate unique code") 500);
          (* Calculate expiry (72 hours from now) *)
          let expiresAt := Date.new (now env) in
          let expiresAt :=
            Date.setHours (zone env) expiresAt
              (option_map (fun h => h + 72) (Date.getHours (zone env) expiresAt)) in
          (* Create invite code *)
          do expires_at <- Date.toISOString expiresAt;
          do created <- insert_code (insert_fails env)
                          {| InviteCode.code := inviteCode;
                             InviteCode.email := FoundersRequest.email foundersRequest.2;
                             InviteCode.phone := FoundersRequest.phone foundersRequest.2;
                             InviteCode.request_id := requestId;
                             InviteCode.expires_at := expires_at |};
          exec return_if (bool_decide (is_Some (error created)))
                 (json (Failure "Failed to create invite code") 500);
          (* Update request status to approved; a failure is only logged *)
          do updated <- update_status (update_fails env) "approved" requestId;
          (* Send email with invite code; a failure is only logged *)
          exec try_catch
                 (do emailResult <-
                    sendOrderEmail env (FoundersRequest.email foundersRequest.2)
                      inviteCode expiresAt;
                  ret tt)
                 (fun emailError => ret tt);
          do iso <- Date.toISOString expiresAt;
          ret (json_ok (Approved inviteCode iso
                          "Request approved and invite code generated"))
      | _, _ =>
          respond (json (Failure "Request not found") 404)
      end
  end.

Definition POST (env : Env) (raw : option Body) (st : Store) : Response * Store :=
  run_handler (POST_body env raw)
    (json (Failure "An unexpected error occurred") 500) st.

End ApproveRoute.

(* ===================================================================== *)
(** ** Runs of the workflow *)
(* ===================================================================== *)

(** The operations that write to the store. *)
Inductive Operation : Type :=
| Intake (env : RequestRoute.Env) (raw : option RequestRoute.Body) : Operation
| Approval (env : ApproveRoute.Env) (raw : option ApproveRoute.Body) : Operation.

Definition perform (op : Operation) (st : Store) : Response * Store :=
  match op with
  | Intake env raw => RequestRoute.POST env raw st
  | Approval env raw => ApproveRoute.POST env raw st
  end.

(** Operations executed one after the other. *)
Fixpoint run (ops : list Operation) (st : Store) : Store :=
  match ops with
  | [] => st
  | op :: ops' => run ops' (perform op st).2
  end.

(* ===================================================================== *)
(** ** Notions the properties are stated with *)
(* ===================================================================== *)




(** Every stored request is in one of the two states of the data model. *)
Definition statuses_known (st : Store) : Prop :=
  forall i r, founders_requests st !! i = Some r ->
              FoundersRequest.status r = "pending" \/ FoundersRequest.status r = "approved".

(** No request stored for the address [e] (in lower case) has status [s]. *)
Definition no_request_with (e s : string) (st : Store) : Prop :=
  forall i r, founders_requests st !! i = Some r ->
              FoundersRequest.email r = e -> FoundersRequest.status r <> s.


(** The store answers every uniqueness look-up of every approval of the
    run. *)
Definition lookups_answered (ops : list Operation) : Prop :=
  Forall (fun op => match op with
                    | Intake _ _ => True
                    | Approval env _ => forall i, ApproveRoute.lookup_fails env i = false
                    end) ops.

(** The code strings of the invite-code table. *)
Definition issued_codes (st : Store) : list string :=
  (fun kr => InviteCode.code kr.2) <$> rows (founders_invite_codes st).

(** The invite-code rows that point to the request [i]. *)
Definition codes_for_request (i : N) (st : Store) : list (N * InviteCode.t) :=
  filter (fun kr => InviteCode.request_id kr.2 = i) (rows (founders_invite_codes st)).

(** The 32 symbols of an invite code. *)
Definition alphabet : list ascii :=
  list_ascii_of_string "ABCDEFGHJKLMNPQRSTUVWXYZ23456789".

Definition in_alphabet (c : ascii) : bool := bool_decide (c ∈ alphabet).

(** An upper-case letter or a digit other than I, O, 0 and 1. *)
Definition unambiguous (c : ascii) : bool :=
  let n := Js.code c in
  ((65 <=? n) && (n <=? 90) || (48 <=? n) && (n <=? 57))%N
  && negb (bool_decide (c ∈ list_ascii_of_string "IO01")).

(** [FC-] followed by exactly eight symbols of the alphabet. *)
Definition well_formed_code (c : string) : Prop :=
  exists s, c = "FC-" ++ s /\ String.length s = 8%nat
            /\ Js.allChars in_alphabet s = true.

(** [Math.random()] returns numbers from 0 (included) to 1 (excluded). *)
Definition unit_interval (random : nat -> Q) : Prop :=
  forall k, (0 <= random k)%Q /\ (random k < 1)%Q.

(** The [i]-th candidate of an approval: the code made of the random draws
    [8 i .. 8 i + 7]. *)
Definition candidate (env : ApproveRoute.Env) (i : nat) : string :=
  (ApproveRoute.generateInviteCode (ApproveRoute.random env) (8 * i)).1.

(** The [i]-th uniqueness look-up of an approval finds a row with the
    [i]-th candidate. *)
Definition collides (env : ApproveRoute.Env) (st : Store) (i : nat) : Prop :=
  is_Some (data (single (ApproveRoute.lookup_fails env i)
                   (codes_by_code (candidate env i) st))).

(** The same surroundings with other outcomes for the status update and
    the e-mail. *)
Definition with_outcomes (env : ApproveRoute.Env) (update_fails : bool)
    (mail : ApproveRoute.MailOutcome) : ApproveRoute.Env :=
  {| ApproveRoute.fetch_fails := ApproveRoute.fetch_fails env;
     ApproveRoute.random := ApproveRoute.random env;
     ApproveRoute.lookup_fails := ApproveRoute.lookup_fails env;
     ApproveRoute.now := ApproveRoute.now env;
     ApproveRoute.zone := ApproveRoute.zone env;
     ApproveRoute.insert_fails := ApproveRoute.insert_fails env;
     ApproveRoute.update_fails := update_fails;
     ApproveRoute.mail := mail |}.

(** A string made of white space only. *)
Definition blank (s : string) : Prop :=
  s <> "" /\ Js.allChars Js.isWhiteSpace s = true.

(** The answers of the two handlers that the properties name. *)
Definition ValidationError_missing : Response :=
  json (Failure "All required fields must be provided") 400.
Definition ConflictError_processed : Response :=
  json (Failure "Request has already been processed") 400.
Definition NotFoundError : Response :=
  json (Failure "Request not found") 404.
Definition GenerationError : Response :=
  json (Failure "Failed to generate unique code") 500.

(** *** The two ways an intake call can end *)

(** The store after inserting a request. *)
Definition with_request (st : Store) (r : FoundersRequest.t) : Store :=
  {| founders_requests := <[next_id (founders_requests st) := r]> (founders_requests st);
     founders_invite_codes := founders_invite_codes st |}.

Definition trimmed_note (v : jsval) : option string :=
  match v with
  | JStr s => if String.eqb (Js.trim s) "" then None else Some (Js.trim s)
  | _ => None
  end.

Definition new_request (clock : Z) (fn e ph pr : string) (nt : jsval) : FoundersRequest.t :=
  {| FoundersRequest.full_name := Js.trim fn;
     FoundersRequest.email := Js.trim (Js.toLowerCase e);
     FoundersRequest.phone := Js.trim ph;
     FoundersRequest.profession := Js.trim pr;
     FoundersRequest.note := trimmed_note nt;
     FoundersRequest.status := "pending";
     FoundersRequest.created_at := clock |}.

Record accepted (env : RequestRoute.Env) (b : RequestRoute.Body) (st : Store)
    (fn e ph pr : string) : Prop := {
  acc_fullName : RequestRoute.fullName b = JStr fn;
  acc_email : RequestRoute.email b = JStr e;
  acc_phone : RequestRoute.phone b = JStr ph;
  acc_profession : RequestRoute.profession b = JStr pr;
  acc_note : forall t x, RequestRoute.note b <> JOther t x;
  acc_fullName_given : fn <> "";
  acc_phone_given : ph <> "";
  acc_profession_given : pr <> "";
  acc_format : Js.matches RequestRoute.emailRegex e = true;
  acc_not_pending :
    data (single (RequestRoute.pending_check_fails env)
            (requests_by_email_status (Js.toLowerCase e) "pending" st)) = None;
  acc_not_approved :
    data (single (RequestRoute.approved_check_fails env)
            (requests_by_email_status (Js.toLowerCase e) "approved" st)) = None;
  acc_inserted : RequestRoute.insert_fails env = false
}.

Definition is_submission (r : Response) : bool :=
  match body r with Submitted _ _ => true | _ => false end.

Definition rejected (st : Store) (p : Response * Store) : Prop :=
  p.2 = st /\ is_submission p.1 = false.

(** A submission whose required fields are non-empty strings, whose
    address has the expected format and whose note, if any, is a string. *)
Record valid (b : RequestRoute.Body) (fn e ph pr : string) : Prop := {
  valid_fullName : RequestRoute.fullName b = JStr fn /\ fn <> "";
  valid_email : RequestRoute.email b = JStr e
                /\ Js.matches RequestRoute.emailRegex e = true;
  valid_phone : RequestRoute.phone b = JStr ph /\ ph <> "";
  valid_profession : RequestRoute.profession b = JStr pr /\ pr <> "";
  valid_note : forall t x, RequestRoute.note b <> JOther t x
}.

(** No pending and no approved request is stored for the address. *)
Definition non_duplicate (e : string) (st : Store) : Prop :=
  no_request_with (Js.toLowerCase e) "pending" st
  /\ no_request_with (Js.toLowerCase e) "approved" st.

(** *** The two ways an approval call can end *)

(** The expiry an approval computes. *)
Definition expiry (env : ApproveRoute.Env) : Date.t :=
  let expiresAt := Date.new (ApproveRoute.now env) in
  Date.setHours (ApproveRoute.zone env) expiresAt
    (option_map (fun h => h + 72) (Date.getHours (ApproveRoute.zone env) expiresAt)).

(** The outcome of the uniqueness loop of an approval. *)
Definition chosen (env : ApproveRoute.Env) (st : Store) : string * nat * nat :=
  let '(inviteCode, k) := ApproveRoute.generateInviteCode (ApproveRoute.random env) 0 in
  ApproveRoute.ensure_unique ApproveRoute.maxAttempts env st inviteCode k.

Definition with_code (st : Store) (c : InviteCode.t) : Store :=
  {| founders_requests := founders_requests st;
     founders_invite_codes :=
       <[next_id (founders_invite_codes st) := c]> (founders_invite_codes st) |}.

Definition with_status (st : Store) (s : string) (i : N) : Store :=
  {| founders_requests := alter (set_status s) i (founders_requests st);
     founders_invite_codes := founders_invite_codes st |}.

Definition new_code (rid : N) (req : FoundersRequest.t) (c : string) (e : Z) : InviteCode.t :=
  {| InviteCode.code := c;
     InviteCode.email := FoundersRequest.email req;
     InviteCode.phone := FoundersRequest.phone req;
     InviteCode.request_id := rid;
     InviteCode.expires_at := e |}.

(** The store after an approval that issued the code [c]. *)
Definition after_approval (env : ApproveRoute.Env) (st : Store) (rid : N)
    (req : FoundersRequest.t) (c : string) (e : Z) : Store :=
  let st1 := with_code st (new_code rid req c e) in
  if ApproveRoute.update_fails env then st1 else with_status st1 "approved" rid.

(** The approval handler spelled out decision by decision. *)
Definition approve_outline (env : ApproveRoute.Env) (raw : option ApproveRoute.Body)
    (st : Store) : Response * Store :=
  let unexpected := json (Failure "An unexpected error occurred") 500 in
  match raw with
  | None => (unexpected, st)
  | Some b =>
      match ApproveRoute.requestId b with
      | None | Some 0%N => (json (Failure "Request ID is required") 400, st)
      | Some rid =>
          if ApproveRoute.fetch_fails env
          then (json (Failure "Request not found") 404, st)
          else
            match founders_requests st !! rid with
            | None => (json (Failure "Request not found") 404, st)
            | Some req =>
                if negb (String.eqb (FoundersRequest.status req) "pending")
                then (json (Failure "Request has already been processed") 400, st)
                else if (ApproveRoute.maxAttempts <=? (chosen env st).1.2)%nat
                then (json (Failure "Failed to generate unique code") 500, st)
                else
                  match expiry env with
                  | None => (unexpected, st)
                  | Some e =>
                      if ApproveRoute.insert_fails env
                      then (json (Failure "Failed to create invite code") 500, st)
                      else
                        (json_ok (Approved (chosen env st).1.1 e
                                    "Request approved and invite code generated"),
                         after_approval env st rid req (chosen env st).1.1 e)
                  end
            end
      end
  end.

(** *** Auxiliary notions for the regular expressions *)

(** Every character class of [r] only accepts code units that satisfy [P]. *)
Fixpoint classes_within (P : ascii -> bool) (r : Js.regex) : Prop :=
  match r with
  | Js.Void | Js.Eps => True
  | Js.Class p => forall c, p c = true -> P c = true
  | Js.Cat r1 r2 | Js.Alt r1 r2 => classes_within P r1 /\ classes_within P r2
  | Js.Star r1 => classes_within P r1
  end.

(** [r] visibly matches nothing. *)
Fixpoint dead (r : Js.regex) : bool :=
  match r with
  | Js.Void => true
  | Js.Eps | Js.Class _ | Js.Star _ => false
  | Js.Cat r1 r2 => dead r1 || dead r2
  | Js.Alt r1 r2 => dead r1 && dead r2
  end.

Definition not_white (c : ascii) : bool := negb (Js.isWhiteSpace c).

(** *** Sample data *)

Module Sample.

Definition jane : RequestRoute.Body :=
  {| RequestRoute.fullName := JStr "Jane Doe";
     RequestRoute.email := JStr "JANE@X.COM";
     RequestRoute.phone := JStr "+1 555";
     RequestRoute.profession := JStr "Designer";
     RequestRoute.note := JUndefined |}.

Definition jane_row (s : string) : FoundersRequest.t :=
  {| FoundersRequest.full_name := "Jane Doe";
     FoundersRequest.email := "jane@x.com";
     FoundersRequest.phone := "+1 555";
     FoundersRequest.profession := "Designer";
     FoundersRequest.note := None;
     FoundersRequest.status := s;
     FoundersRequest.created_at := 1000 |}.

(** A store holding Jane's pending request under the key 1. *)
Definition one_pending : Store :=
  {| founders_requests := {[ 1%N := jane_row "pending" ]};
     founders_invite_codes := ∅ |}.


Definition calm_intake : RequestRoute.Env :=
  {| RequestRoute.pending_check_fails := false;
     RequestRoute.approved_check_fails := false;
     RequestRoute.insert_fails := false;
     RequestRoute.clock := 1000 |}.

(** Midday of 7 March 2026 in New York, 17:00 UTC. *)
Definition saturday_noon : Z := 1772902800000.

(** New York around 8 March 2026: UTC-5 until 07:00 UTC that day, UTC-4
    afterwards. *)
Definition new_york : Date.TimeZone :=
  Date.shifting_zone 1772953200000 (-5 * Date.msPerHour) (-4 * Date.msPerHour).

(** An approval in which every call succeeds; all random draws are 0, so
    every candidate is [FC-AAAAAAAA]. *)
Definition calm_approval : ApproveRoute.Env :=
  {| ApproveRoute.fetch_fails := false;
     ApproveRoute.random := fun _ => 0%Q;
     ApproveRoute.lookup_fails := fun _ => false;
     ApproveRoute.now := saturday_noon;
     ApproveRoute.zone := Date.fixed_zone 0;
     ApproveRoute.insert_fails := false;
     ApproveRoute.update_fails := false;
     ApproveRoute.mail := ApproveRoute.Delivered |}.

Definition approve_1 : option ApproveRoute.Body :=
  Some {| ApproveRoute.requestId := Some 1%N |}.

End Sample.

(* ===================================================================== *)
(** ** Further notions: answers, tables, runs *)
(* ===================================================================== *)

(** A refusal: a failure document with a message, answered 400 or 500. *)
Definition is_refusal (r : Response) : bool :=
  match body r with
  | Failure e => negb (String.eqb e "") && ((http_status r =? 400) || (http_status r =? 500))%Z
  | _ => false
  end.

(** The intake either adds a row or refuses and leaves the store alone. *)
Definition refused (st : Store) (p : Response * Store) : Prop :=
  p.2 = st /\ is_refusal p.1 = true.

(** The answers of the intake that the properties name. *)
Definition ValidationError_format : Response :=
  json (Failure "Invalid email format") 400.
Definition ConflictError_pending : Response :=
  json (Failure "You already have a pending request. Please wait for approval.") 400.
Definition ConflictError_approved : Response :=
  json (Failure "This email is already approved. Please check your email for the invite code.") 400.
Definition StoreError_submit : Response :=
  json (Failure "Failed to submit request. Please try again.") 500.
Definition StoreError_code : Response :=
  json (Failure "Failed to create invite code") 500.
Definition UnexpectedError : Response :=
  json (Failure "An unexpected error occurred") 500.
Definition ValidationError_id : Response :=
  json (Failure "Request ID is required") 400.

(** The four required fields are truthy. *)
Definition required_given (b : RequestRoute.Body) : Prop :=
  truthy (RequestRoute.fullName b) = true /\ truthy (RequestRoute.email b) = true
  /\ truthy (RequestRoute.phone b) = true /\ truthy (RequestRoute.profession b) = true.

(** [Math.floor(Math.random() * chars.length)] at the [k]-th draw. *)
Definition index_at (random : nat -> Q) (k : nat) : Z :=
  ApproveRoute.Math_floor (random k * inject_Z 32).

(** Every invite code points to a stored request and carries the address
    and the phone of that request. *)
Definition codes_refer (st : Store) : Prop :=
  forall k c, founders_invite_codes st !! k = Some c ->
    exists r, founders_requests st !! InviteCode.request_id c = Some r
              /\ FoundersRequest.email r = InviteCode.email c
              /\ FoundersRequest.phone r = InviteCode.phone c.

(** Every approved request has an invite code. *)
Definition approved_have_codes (st : Store) : Prop :=
  forall i r, founders_requests st !! i = Some r ->
    FoundersRequest.status r = "approved" ->
    exists k c, founders_invite_codes st !! k = Some c /\ InviteCode.request_id c = i.

(** The request [r'] is the request [r], possibly approved since. *)
Definition same_or_approved (r r' : FoundersRequest.t) : Prop :=
  r' = r \/ (FoundersRequest.status r = "pending" /\ r' = set_status "approved" r).

(** *** What a regular expression matches

    The strings a regular expression denotes, by the usual rules. *)
Inductive lang : Js.regex -> string -> Prop :=
| lang_eps : lang Js.Eps ""
| lang_class p c : p c = true -> lang (Js.Class p) (String c "")
| lang_cat r1 r2 s1 s2 : lang r1 s1 -> lang r2 s2 -> lang (Js.Cat r1 r2) (s1 ++ s2)
| lang_alt_l r1 r2 s : lang r1 s -> lang (Js.Alt r1 r2) s
| lang_alt_r r1 r2 s : lang r2 s -> lang (Js.Alt r1 r2) s
| lang_star_nil r : lang (Js.Star r) ""
| lang_star_cons r s1 s2 : lang r s1 -> lang (Js.Star r) s2 -> lang (Js.Star r) (s1 ++ s2).

(** A non-empty run of code units that are neither white space nor [@]. *)
Definition address_part (s : string) : Prop :=
  s <> "" /\ Js.allChars RequestRoute.is_not_white_or_at s = true.

(** *** Two requests and an approval whose look-ups are not answered *)

Definition john : RequestRoute.Body :=
  {| RequestRoute.fullName := JStr "John Roe";
     RequestRoute.email := JStr "john@y.org";
     RequestRoute.phone := JStr "+1 777";
     RequestRoute.profession := JStr "Engineer";
     RequestRoute.note := JUndefined |}.

(** The store after the submissions of Jane and John: two pending
    requests, under the keys 1 and 2. *)
Definition two_pending : Store :=
  run [Intake Sample.calm_intake (Some Sample.jane);
       Intake Sample.calm_intake (Some john)] empty_store.

Definition approve_2 : option ApproveRoute.Body :=
  Some {| ApproveRoute.requestId := Some 2%N |}.

(** An approval with the random draws of [Sample.calm_approval] whose
    uniqueness look-ups the store does not answer. *)
Definition deaf_approval : ApproveRoute.Env :=
  {| ApproveRoute.fetch_fails := false;
     ApproveRoute.random := fun _ => 0%Q;
     ApproveRoute.lookup_fails := fun _ => true;
     ApproveRoute.now := Sample.saturday_noon;
     ApproveRoute.zone := Date.fixed_zone 0;
     ApproveRoute.insert_fails := false;
     ApproveRoute.update_fails := false;
     ApproveRoute.mail := ApproveRoute.Delivered |}.

(** The same, against a store that refuses the insert, as a table with a
    uniqueness constraint on the code would. *)
Definition strict_approval : ApproveRoute.Env :=
  {| ApproveRoute.fetch_fails := false;
     ApproveRoute.random := fun _ => 0%Q;
     ApproveRoute.lookup_fails := fun _ => true;
     ApproveRoute.now := Sample.saturday_noon;
     ApproveRoute.zone := Date.fixed_zone 0;
     ApproveRoute.insert_fails := true;
     ApproveRoute.update_fails := false;
     ApproveRoute.mail := ApproveRoute.Delivered |}.

(** *** White space at the ends of a string, said without [trim] *)

(** A string made of white space only, possibly empty. *)
Definition white (s : string) : Prop := Js.allChars Js.isWhiteSpace s = true.

Definition first_char (s : string) : option ascii :=
  match s with
  | EmptyString => None
  | String c _ => Some c
  end.

Fixpoint last_char (s : string) : option ascii :=
  match s with
  | EmptyString => None
  | String c EmptyString => Some c
  | String _ rest => last_char rest
  end.

(** Neither the first nor the last code unit of the string is white
    space. *)
Definition tight (s : string) : Prop :=
  (forall c, first_char s = Some c -> Js.isWhiteSpace c = false)
  /\ (forall c, last_char s = Some c -> Js.isWhiteSpace c = false).

(** [t] is [s] without the white space at its two ends. *)
Definition trims (s t : string) : Prop :=
  exists l r, s = l ++ t ++ r /\ white l /\ white r /\ tight t.

(** The capital letters A to Z. *)
Definition is_capital (c : ascii) : bool :=
  let n := Js.code c in ((65 <=? n) && (n <=? 90))%N.

Definition no_capital (s : string) : Prop :=
  Js.allChars (fun c => negb (is_capital c)) s = true.

(** A submission with white space around its fields. *)
Definition padded_jane : RequestRoute.Body :=
  {| RequestRoute.fullName := JStr "  Jane Doe ";
     RequestRoute.email := JStr "JANE@X.COM";
     RequestRoute.phone := JStr " +1 555  ";
     RequestRoute.profession := JStr "Designer ";
     RequestRoute.note := JStr " hello " |}.

(* ===================================================================== *)
(** ** The request form, [src/components/RequestAccessModal.tsx] *)
(* ===================================================================== *)

Module RequestAccessModal.

(** The state of the component: the four [useState] cells.  The form data
    is a JavaScript object, a map from property names to strings. *)
Record State : Type := {
  formData : gmap string string;
  loading : bool;
  success : bool;
  error : string
}.

(** [{ firstName: '', lastName: '', email: '', phone: '', profession: '',
    note: '' }] *)
Definition emptyForm : gmap string string :=
  list_to_map [("firstName", ""); ("lastName", ""); ("email", "");
               ("phone", ""); ("profession", ""); ("note", "")].

Definition initial : State :=
  {| formData := emptyForm; loading := false; success := false; error := "" |}.

(** The callbacks the component receives as properties. *)
Inductive Callback : Type :=
| onClose : Callback
| onSuccess : Callback.

(** [handleChange], for the input named [name] holding [value]. *)
Definition handleChange (name value : string) (s : State) : State :=
  {| formData := <[name := value]> (formData s);
     loading := loading s;
     success := success s;
     error := "" |}.

(** The body the route handler destructures after [JSON.stringify] of the
    form data and [request.json()]: a property that the form data does not
    have is [undefined]. *)
Definition property (fd : gmap string string) (name : string) : jsval :=
  match fd !! name with
  | Some v => JStr v
  | None => JUndefined
  end.

Definition posted (fd : gmap string string) : RequestRoute.Body :=
  {| RequestRoute.fullName := property fd "fullName";
     RequestRoute.email := property fd "email";
     RequestRoute.phone := property fd "phone";
     RequestRoute.profession := property fd "profession";
     RequestRoute.note := property fd "note" |}.

(** [response.ok] *)
Definition ok (r : Response) : bool :=
  ((200 <=? http_status r) && (http_status r <=? 299))%Z.

(** [data.success] and [data.error] of the document answered. *)
Definition data_success (r : Response) : bool :=
  match body r with
  | Failure _ => false
  | _ => true
  end.

Definition data_error (r : Response) : option string :=
  match body r with
  | Failure e => Some e
  | _ => None
  end.

(** [a || b] on a string that may be undefined. *)
Definition or_else (a : option string) (b : string) : string :=
  match a with
  | Some s => if String.eqb s "" then b else s
  | None => b
  end.

(** The rest of [handleSubmit] once [fetch] has settled: with a response,
    or with a rejection ([None]).  [notify] says whether the optional
    [onSuccess] was given. *)
Definition settle (notify : bool) (fetched : option Response) (s : State)
  : State * list Callback :=
  match fetched with
  | Some response =>
      if ok response && data_success response
      then ({| formData := formData s; loading := false; success := true; error := "" |},
            if notify then [onSuccess] else [])
      else ({| formData := formData s; loading := false; success := success s;
               error := or_else (data_error response)
                          "Failed to submit request. Please try again." |}, [])
  | None =>
      ({| formData := formData s; loading := false; success := success s;
          error := "Network error. Please check your connection and try again." |}, [])
  end.

(** How the request of [handleSubmit] ends: it does not reach the server;
    the server handles it but [fetch] or [response.json()] rejects (the
    response is lost or cannot be read); the response arrives. *)
Inductive Network : Type :=
| Unreachable : Network
| Lost : Network
| Delivered : Network.

(** [handleSubmit] against the intake route.  Whenever the request reaches
    the server the handler runs, whether or not its response comes back. *)
Definition handleSubmit (notify : bool) (net : Network) (env : RequestRoute.Env)
    (s : State) (st : Store) : State * list Callback * Store :=
  match net with
  | Unreachable => (settle notify None s, st)
  | Lost =>
      let '(_, st') := RequestRoute.POST env (Some (posted (formData s))) st in
      (settle notify None s, st')
  | Delivered =>
      let '(response, st') := RequestRoute.POST env (Some (posted (formData s))) st in
      (settle notify (Some response) s, st')
  end.

(** [handleClose] *)
Definition handleClose (s : State) : State * list Callback :=
  ({| formData := emptyForm; loading := loading s; success := false; error := "" |},
   [onClose]).

(** What a visitor can do with the form. *)
Inductive Event : Type :=
| Change (name value : string) : Event
| Submit (net : Network) (env : RequestRoute.Env) : Event
| Close : Event.

(** The [name] attributes of the inputs of the form. *)
Definition input_names : list string :=
  ["firstName"; "lastName"; "email"; "phone"; "profession"; "note"].

Definition from_form (ev : Event) : Prop :=
  match ev with
  | Change name _ => name ∈ input_names
  | _ => True
  end.

(** The component and the server after an event; the callbacks made so far
    are collected. *)
Definition react (notify : bool) (ev : Event) (w : State * list Callback * Store)
  : State * list Callback * Store :=
  let '(s, calls, st) := w in
  match ev with
  | Change name value => (handleChange name value s, calls, st)
  | Submit net env =>
      let '(s', made, st') := handleSubmit notify net env s st in
      (s', (calls ++ made)%list, st')
  | Close =>
      let '(s', made) := handleClose s in (s', (calls ++ made)%list, st)
  end.

Definition play (notify : bool) (evs : list Event) (w : State * list Callback * Store)
  : State * list Callback * Store :=
  foldl (fun w ev => react notify ev w) w evs.

End RequestAccessModal.

(** What the form as written never has: a property [fullName], a success,
    a call of [onSuccess], an effect on the store [st]. *)
Definition nameless (st : Store)
    (w : RequestAccessModal.State * list RequestAccessModal.Callback * Store) : Prop :=
  RequestAccessModal.formData w.1.1 !! "fullName" = None
  /\ RequestAccessModal.success w.1.1 = false
  /\ (RequestAccessModal.onSuccess ∉ w.1.2)
  /\ w.2 = st.

(* ===================================================================== *)
(** ** Facts about the JavaScript primitives *)
(* ===================================================================== *)

Section JsFacts.

(** A property of code units that holds of all 256 of them. *)
Lemma all_ascii (P : ascii -> bool) :
  forallb P (map ascii_of_nat (seq 0 256)) = true -> forall c, P c = true.
Proof.
  intros H c. rewrite forallb_forall in H.
  rewrite <- (ascii_nat_embedding c). apply H.
  apply in_map, in_seq. pose proof (nat_ascii_bounded c). lia.
Qed.


Lemma lowerChar_white c : Js.isWhiteSpace (Js.lowerChar c) = Js.isWhiteSpace c.
Proof.
  pose proof (all_ascii (fun c => Bool.eqb (Js.isWhiteSpace (Js.lowerChar c)) (Js.isWhiteSpace c))) as H.
  apply Bool.eqb_prop, H. vm_compute. reflexivity.
Qed.


Lemma toLowerCase_not_white s :
  Js.allChars not_white s = true -> Js.allChars not_white (Js.toLowerCase s) = true.
Proof.
  induction s as [|c s IH]; simpl; [reflexivity|].
  unfold not_white at 1 3. rewrite lowerChar_white.
  intros [-> H]%andb_prop. rewrite (IH H). reflexivity.
Qed.


(** Trimming leaves a string without white space as it is. *)
Lemma trimEnd_not_white s : Js.allChars not_white s = true -> Js.trimEnd s = s.
Proof.
  induction s as [|c s IH]; simpl; [reflexivity|].
  intros [Hc Hs]%andb_prop. rewrite (IH Hs).
  unfold not_white in Hc. apply negb_true_iff in Hc. rewrite Hc.
  destruct s; reflexivity.
Qed.

Lemma trim_not_white s : Js.allChars not_white s = true -> Js.trim s = s.
Proof.
  intros H. unfold Js.trim.
  replace (Js.trimStart s) with s; [apply trimEnd_not_white, H|].
  destruct s as [|c s]; simpl in *; [reflexivity|].
  apply andb_prop in H as [Hc _]. unfold not_white in Hc.
  apply negb_true_iff in Hc. rewrite Hc. reflexivity.
Qed.

(** Trimming a string of white space leaves nothing. *)
Lemma trim_white s : Js.allChars Js.isWhiteSpace s = true -> Js.trim s = "".
Proof.
  unfold Js.trim. induction s as [|c s IH]; simpl; [reflexivity|].
  intros [-> H]%andb_prop. apply IH, H.
Qed.

(** *** The derivative matcher *)

Lemma dead_not_nullable r : dead r = true -> Js.nullable r = false.
Proof.
  induction r; simpl; try discriminate; try reflexivity.
  - intros [H|H]%orb_prop; [rewrite IHr1 | rewrite IHr2, andb_false_r]; auto.
  - intros [H1 H2]%andb_prop. rewrite IHr1, IHr2; auto.
Qed.

Lemma dead_deriv c r : dead r = true -> dead (Js.deriv c r) = true.
Proof.
  induction r; simpl; try discriminate; try reflexivity.
  - intros H. destruct (Js.nullable r1) eqn:Hn; simpl.
    + apply orb_prop in H as [H|H].
      * rewrite (dead_not_nullable _ H) in Hn. discriminate.
      * rewrite H, (IHr2 H), orb_true_r. reflexivity.
    + apply orb_prop in H as [H|H].
      * rewrite (IHr1 H). reflexivity.
      * rewrite H, orb_true_r. reflexivity.
  - intros [H1 H2]%andb_prop. rewrite IHr1, IHr2; auto.
Qed.

Lemma dead_matches s : forall r, dead r = true -> Js.matches r s = false.
Proof.
  induction s as [|c s IH]; simpl; intros r H.
  - apply dead_not_nullable, H.
  - apply IH, dead_deriv, H.
Qed.

Lemma deriv_outside P c r :
  classes_within P r -> P c = false -> dead (Js.deriv c r) = true.
Proof.
  intros Hr Hc. induction r; simpl in *; try reflexivity.
  - destruct (p c) eqn:Hp; [|reflexivity].
    rewrite (Hr c Hp) in Hc. discriminate.
  - destruct Hr as [H1 H2]. destruct (Js.nullable r1); simpl.
    + rewrite (IHr1 H1), (IHr2 H2). reflexivity.
    + rewrite (IHr1 H1). reflexivity.
  - destruct Hr as [H1 H2]. rewrite (IHr1 H1), (IHr2 H2). reflexivity.
  - rewrite (IHr Hr). reflexivity.
Qed.

Lemma classes_within_deriv P c r :
  classes_within P r -> classes_within P (Js.deriv c r).
Proof.
  induction r; simpl; intros H; auto.
  - destruct (p c); simpl; auto.
  - destruct H as [H1 H2]. destruct (Js.nullable r1); simpl; auto.
  - destruct H as [H1 H2]. auto.
Qed.

(** A string matched by [r] is made of code units the classes of [r]
    accept. *)
Lemma matches_within P s :
  forall r, classes_within P r -> Js.matches r s = true -> Js.allChars P s = true.
Proof.
  induction s as [|c s IH]; simpl; intros r Hr Hm; [reflexivity|].
  destruct (P c) eqn:Hc; simpl.
  - apply (IH _ (classes_within_deriv P c r Hr) Hm).
  - rewrite (dead_matches s _ (deriv_outside P c r Hr Hc)) in Hm. discriminate.
Qed.

Lemma emailRegex_classes : classes_within not_white RequestRoute.emailRegex.
Proof.
  assert (Hc : forall c, RequestRoute.is_not_white_or_at c = true -> not_white c = true).
  { intros c [H _]%andb_prop. exact H. }
  assert (Hl : forall a c, Js.isWhiteSpace a = false ->
                           Ascii.eqb a c = true -> not_white c = true).
  { intros a c Ha ->%Ascii.eqb_eq. unfold not_white. rewrite Ha. reflexivity. }
  unfold RequestRoute.emailRegex, Js.Plus, Js.Chr. cbn [classes_within].
  repeat split; auto; intros c; apply Hl; reflexivity.
Qed.

(** An address that passes the format check contains no white space. *)
Lemma email_not_white s :
  Js.matches RequestRoute.emailRegex s = true -> Js.allChars not_white s = true.
Proof. apply matches_within, emailRegex_classes. Qed.

(** Hence lower-casing and then trimming it only lower-cases it. *)
Lemma email_trim_lower s :
  Js.matches RequestRoute.emailRegex s = true ->
  Js.trim (Js.toLowerCase s) = Js.toLowerCase s.
Proof.
  intros H. apply trim_not_white, toLowerCase_not_white, email_not_white, H.
Qed.

Lemma email_not_empty s : Js.matches RequestRoute.emailRegex s = true -> s <> "".
Proof. intros H ->. vm_compute in H. discriminate. Qed.

End JsFacts.

(* ===================================================================== *)
(** ** Facts about the data-store client *)
(* ===================================================================== *)

Section StoreFacts.
Context {A : Type}.
Implicit Types t : gmap N A.

Lemma key_le_max t i x :
  t !! i = Some x -> (i <= foldr N.max 0%N (rows t).*1)%N.
Proof.
  intros H. apply elem_of_map_to_list in H.
  unfold rows. induction (map_to_list t) as [|[j y] l IH].
  - inversion H.
  - rewrite fmap_cons. cbn [foldr fst].
    apply elem_of_cons in H as [H|H].
    + inversion H; subst. apply N.le_max_l.
    + etransitivity; [apply (IH H) | apply N.le_max_r].
Qed.

Lemma next_id_fresh t : t !! next_id t = None.
Proof.
  destruct (t !! next_id t) as [x|] eqn:H; [|reflexivity].
  apply key_le_max in H. unfold next_id in H. lia.
Qed.

Lemma next_id_positive t : next_id t <> 0%N.
Proof. unfold next_id. lia. Qed.

Lemma rows_insert t x :
  rows (<[next_id t := x]> t) ≡ₚ (next_id t, x) :: rows t.
Proof. apply map_to_list_insert, next_id_fresh. Qed.

Lemma rows_lookup t i x : (i, x) ∈ rows t <-> t !! i = Some x.
Proof. apply elem_of_map_to_list. Qed.



(** *** [.single()] *)


End StoreFacts.

(* ===================================================================== *)
(** ** How an intake call ends *)
(* ===================================================================== *)

Ltac monad_unfold :=
  cbv [bind ret respond throw return_if get_store try_catch run_handler
       ToString call_string_method optional_trim_or_null
       insert_request insert_code update_status].

Lemma intake_accepted env b st fn e ph pr :
  accepted env b st fn e ph pr ->
  RequestRoute.POST env (Some b) st =
    (json_ok (Submitted "Request submitted successfully" (next_id (founders_requests st))),
     with_request st (new_request (RequestRoute.clock env) fn e ph pr (RequestRoute.note b))).
Proof.
  intros [Hfn He Hph Hpr Hnt Hfn' Hph' Hpr' Hm Hp Ha Hi].
  unfold RequestRoute.POST, RequestRoute.POST_body, RequestRoute.request_json.
  assert (He' : e <> "") by (intros ->; vm_compute in Hm; discriminate).
  apply String.eqb_neq in Hfn', Hph', Hpr', He'.
  monad_unfold. rewrite Hfn, He, Hph, Hpr, Hi.
  cbn [truthy]. rewrite Hfn', Hph', Hpr', He'. cbn [negb orb].
  rewrite Hm. cbn [negb]. rewrite Hp, Ha.
  rewrite !bool_decide_eq_false_2 by (intros [? [=]]).
  destruct (RequestRoute.note b) as [| |n|t x] eqn:Hn; try (exfalso; eapply Hnt; reflexivity);
    reflexivity.
Qed.

Lemma decide_is_Some_None {A} : bool_decide (is_Some (@None A)) = false.
Proof. apply bool_decide_eq_false_2. intros [? [=]]. Qed.

Lemma decide_is_Some_Some {A} (x : A) : bool_decide (is_Some (Some x)) = true.
Proof. apply bool_decide_eq_true_2. eauto. Qed.

Ltac use_equations :=
  repeat match goal with
         | H : ?l = _ |- context [?l] => rewrite H
         end.

Ltac tidy :=
  repeat (progress (use_equations;
                    cbn [fst snd negb orb andb truthy data error failed succeeded
                         body is_submission];
                    rewrite ?decide_is_Some_None, ?decide_is_Some_Some)).

Ltac split_on x :=
  lazymatch x with
  | orb ?a _ => split_on a
  | andb ?a _ => split_on a
  | negb ?a => split_on a
  | context [match _ with _ => _ end] => fail
  | _ => destruct x eqn:?
  end.

Ltac crunch :=
  tidy;
  repeat (match goal with
          | |- context [match ?x with _ => _ end] => split_on x
          end; tidy).

Ltac intake_rejected :=
  right; unfold RequestRoute.POST, RequestRoute.POST_body, RequestRoute.request_json;
  monad_unfold; crunch; split; reflexivity.

Lemma intake_cases env raw st :
  (exists b fn e ph pr, raw = Some b /\ accepted env b st fn e ph pr)
  \/ rejected st (RequestRoute.POST env raw st).
Proof.
  destruct raw as [b|]; [|right; split; reflexivity].
  destruct (RequestRoute.fullName b) as [| |fn|t1 x1] eqn:Hfn; [intake_rejected ..| |intake_rejected].
  destruct (RequestRoute.email b) as [| |e|t2 x2] eqn:He; [intake_rejected ..| |intake_rejected].
  destruct (RequestRoute.phone b) as [| |ph|t3 x3] eqn:Hph; [intake_rejected ..| |intake_rejected].
  destruct (RequestRoute.profession b) as [| |pr|t4 x4] eqn:Hpr; [intake_rejected ..| |intake_rejected].
  destruct (String.eqb fn "") eqn:Hfn'; [intake_rejected|].
  destruct (String.eqb ph "") eqn:Hph'; [intake_rejected|].
  destruct (String.eqb pr "") eqn:Hpr'; [intake_rejected|].
  destruct (Js.matches RequestRoute.emailRegex e) eqn:Hm; [|intake_rejected].
  destruct (data (single (RequestRoute.pending_check_fails env)
            (requests_by_email_status (Js.toLowerCase e) "pending" st))) eqn:Hp;
    [intake_rejected|].
  destruct (data (single (RequestRoute.approved_check_fails env)
            (requests_by_email_status (Js.toLowerCase e) "approved" st))) eqn:Ha;
    [intake_rejected|].
  destruct (RequestRoute.insert_fails env) eqn:Hi; [intake_rejected|].
  assert (Hnt : (exists t x, RequestRoute.note b = JOther t x)
                \/ forall t x, RequestRoute.note b <> JOther t x).
  { destruct (RequestRoute.note b); eauto; right; discriminate. }
  destruct Hnt as [(t & x & Hnt)|Hnt]; [intake_rejected|].
  left. exists b, fn, e, ph, pr. split; [reflexivity|].
  apply String.eqb_neq in Hfn', Hph', Hpr'. by constructor.
Qed.

(* ===================================================================== *)
(** ** The code generator *)
(* ===================================================================== *)

Section Generator.

Lemma append_draws n random : forall code k,
  (ApproveRoute.append_random_chars n random code k).2 = (k + n)%nat.
Proof.
  induction n as [|n IH]; intros code k; cbn [ApproveRoute.append_random_chars snd].
  - lia.
  - rewrite IH. lia.
Qed.

Lemma generate_draws random k :
  (ApproveRoute.generateInviteCode random k).2 = (k + 8)%nat.
Proof.
  unfold ApproveRoute.generateInviteCode.
  pose proof (append_draws 8 random "" k) as H.
  destruct (ApproveRoute.append_random_chars 8 random "" k). exact H.
Qed.

Lemma generate_candidate env i :
  ApproveRoute.generateInviteCode (ApproveRoute.random env) (8 * i) =
  (candidate env i, (8 * S i)%nat).
Proof.
  unfold candidate.
  pose proof (generate_draws (ApproveRoute.random env) (8 * i)) as H.
  destruct (ApproveRoute.generateInviteCode _ _) as [c k]. cbn [fst snd] in *.
  f_equal. lia.
Qed.

(** The index [Math.floor(Math.random() * 32)] lies in the alphabet. *)
Lemma index_in_range q :
  (0 <= q)%Q -> (q < 1)%Q ->
  0 <= ApproveRoute.Math_floor (q * inject_Z 32) < 32.
Proof.
  intros H0 H1. unfold ApproveRoute.Math_floor. split.
  - change 0 with (Qfloor (inject_Z 0)). apply Qfloor_resp_le.
    change (inject_Z 0) with (0 * inject_Z 32)%Q.
    apply Qmult_le_compat_r; [exact H0 | discriminate].
  - apply Z.lt_nge. intros Hge.
    assert (H : (inject_Z 32 <= q * inject_Z 32)%Q).
    { eapply Qle_trans; [|apply Qfloor_le]. rewrite <- Zle_Qle. exact Hge. }
    apply Qle_not_lt in H. apply H.
    change (q * inject_Z 32 < 1 * inject_Z 32)%Q.
    apply Qmult_lt_compat_r; [reflexivity | exact H1].
Qed.

Lemma charAt_alphabet k :
  0 <= k < 32 ->
  exists c, Js.charAt ApproveRoute.chars k = String c "" /\ in_alphabet c = true.
Proof.
  intros Hk.
  assert (H : forallb (fun n => match Js.charAt ApproveRoute.chars (Z.of_nat n) with
                                | String c "" => in_alphabet c
                                | _ => false
                                end) (seq 0 32) = true) by (vm_compute; reflexivity).
  rewrite forallb_forall in H. specialize (H (Z.to_nat k)).
  rewrite Z2Nat.id in H by lia.
  destruct (Js.charAt ApproveRoute.chars k) as [|c [|? ?]];
    try (discriminate H; apply in_seq; lia).
  exists c. split; [reflexivity|]. apply H, in_seq. lia.
Qed.

Lemma string_app_assoc (a b c : string) : (a ++ b) ++ c = a ++ (b ++ c).
Proof.
  induction a as [|x a IH]; [reflexivity|].
  change (String x ((a ++ b) ++ c) = String x (a ++ (b ++ c))). by rewrite IH.
Qed.

Lemma string_app_empty (a : string) : a ++ "" = a.
Proof.
  induction a as [|x a IH]; [reflexivity|].
  change (String x (a ++ "") = String x a). by rewrite IH.
Qed.

Lemma append_chars_shape n random : unit_interval random -> forall code k,
  exists s, (ApproveRoute.append_random_chars n random code k).1 = code ++ s
            /\ String.length s = n /\ Js.allChars in_alphabet s = true.
Proof.
  intros Hr. induction n as [|n IH]; intros code k; cbn [ApproveRoute.append_random_chars].
  - exists "". cbn [fst]. rewrite string_app_empty. done.
  - destruct (Hr k) as [H0 H1].
    destruct (charAt_alphabet _ (index_in_range _ H0 H1)) as (c & Hc & Hin).
    change (Z.of_nat (String.length ApproveRoute.chars)) with 32.
    rewrite Hc.
    destruct (IH (code ++ String c "") (S k)) as (s & Hs & Hl & Ha).
    exists (String c s). rewrite Hs, string_app_assoc. cbn.
    rewrite Hl, Hin, Ha. done.
Qed.

Lemma generate_well_formed random k :
  unit_interval random ->
  well_formed_code (ApproveRoute.generateInviteCode random k).1.
Proof.
  intros Hr. unfold ApproveRoute.generateInviteCode.
  destruct (append_chars_shape 8 random Hr "" k) as (s & Hs & Hl & Ha).
  destruct (ApproveRoute.append_random_chars 8 random "" k) as [code k'].
  cbn [fst] in *. subst code. exists s. done.
Qed.

End Generator.

(* ===================================================================== *)
(** ** How an approval call ends *)
(* ===================================================================== *)


(* ===================================================================== *)
(** ** The uniqueness loop and the expiry *)
(* ===================================================================== *)

Section Loop.
Variables (env : ApproveRoute.Env) (st : Store).

(** What the uniqueness loop returns when it is entered with the [i]-th
    candidate: it stops at the first candidate that no look-up finds, or
    gives up after the tenth. *)
Lemma ensure_unique_spec remaining :
  (remaining <= ApproveRoute.maxAttempts)%nat ->
  let i := (ApproveRoute.maxAttempts - remaining)%nat in
  let result := ApproveRoute.ensure_unique remaining env st (candidate env i) (8 * S i) in
  (result.1.2 = ApproveRoute.maxAttempts
   /\ forall j, (i <= j < ApproveRoute.maxAttempts)%nat -> collides env st j)
  \/ ((i <= result.1.2 < ApproveRoute.maxAttempts)%nat
      /\ result.1.1 = candidate env result.1.2
      /\ ~ collides env st result.1.2
      /\ forall j, (i <= j < result.1.2)%nat -> collides env st j).
Proof.
  induction remaining as [|r IH]; intros Hr; cbn zeta.
  - left. cbn [ApproveRoute.ensure_unique fst snd]. split; [reflexivity|]. lia.
  - cbn [ApproveRoute.ensure_unique]. cbn zeta.
    set (i := (ApproveRoute.maxAttempts - S r)%nat) in *.
    destruct (data (single (ApproveRoute.lookup_fails env i)
                      (codes_by_code (candidate env i) st))) as [x|] eqn:Hx.
    + replace (8 * S i)%nat with (8 * (S i))%nat by lia.
      rewrite generate_candidate.
      assert (Hi : (ApproveRoute.maxAttempts - r)%nat = S i) by (subst i; lia).
      specialize (IH ltac:(lia)). cbn zeta in IH. rewrite Hi in IH.
      assert (Hc : collides env st i) by (unfold collides; rewrite Hx; eauto).
      destruct IH as [[Ha Hall]|(Ha & Hcode & Hfree & Hall)].
      * left. split; [exact Ha|]. intros j Hj.
        destruct (decide (j = i)) as [->|]; [exact Hc | apply Hall; lia].
      * right. repeat split; try lia; try assumption.
        intros j Hj. destruct (decide (j = i)) as [->|]; [exact Hc | apply Hall; lia].
    + right. cbn [fst snd]. repeat split; try reflexivity; try (subst i; lia).
      unfold collides. rewrite Hx. intros [? [=]].
Qed.

Lemma chosen_eq :
  chosen env st =
  ApproveRoute.ensure_unique ApproveRoute.maxAttempts env st (candidate env 0) 8.
Proof.
  pose proof (generate_candidate env 0) as H.
  change (8 * 0)%nat with 0%nat in H. change (8 * 1)%nat with 8%nat in H.
  unfold chosen. rewrite H. reflexivity.
Qed.

Lemma chosen_spec :
  ((chosen env st).1.2 = ApproveRoute.maxAttempts
   /\ forall j, (j < ApproveRoute.maxAttempts)%nat -> collides env st j)
  \/ (((chosen env st).1.2 < ApproveRoute.maxAttempts)%nat
      /\ (chosen env st).1.1 = candidate env (chosen env st).1.2
      /\ ~ collides env st (chosen env st).1.2).
Proof.
  rewrite chosen_eq.
  pose proof (ensure_unique_spec ApproveRoute.maxAttempts ltac:(lia)) as H.
  cbn zeta in H. rewrite Nat.sub_diag in H. change (8 * 1)%nat with 8%nat in H.
  destruct H as [[Ha Hall]|(Ha & Hcode & Hfree & Hall)].
  - left. split; [exact Ha|]. intros j Hj. apply Hall. lia.
  - right. repeat split; try lia; assumption.
Qed.

End Loop.

Section Dates.

(** Putting the fields of a local time back together with 72 more hours
    gives the local time 72 hours later. *)
Lemma MakeDate_plus_72 tl :
  Date.MakeDate (Date.Day tl)
    (Date.MakeTime (Date.HourFromTime tl + 72) (Date.MinFromTime tl)
       (Date.SecFromTime tl) (Date.msFromTime tl))
  = tl + 72 * Date.msPerHour.
Proof.
  unfold Date.MakeDate, Date.MakeTime, Date.Day, Date.HourFromTime, Date.MinFromTime,
    Date.SecFromTime, Date.msFromTime, Date.msPerDay, Date.msPerHour, Date.msPerMinute,
    Date.msPerSecond.
  pose proof (Z.div_mod tl 1000 ltac:(lia)).
  pose proof (Z.div_mod (tl / 1000) 60 ltac:(lia)).
  pose proof (Z.div_mod (tl / 60000) 60 ltac:(lia)).
  pose proof (Z.div_mod (tl / 3600000) 24 ltac:(lia)).
  replace (tl / 60000) with (tl / 1000 / 60) in * by (rewrite Z.div_div by lia; reflexivity).
  replace (tl / 3600000) with (tl / 1000 / 60 / 60) in *
    by (rewrite !Z.div_div by lia; reflexivity).
  replace (tl / 86400000) with (tl / 1000 / 60 / 60 / 24)
    by (rewrite !Z.div_div by lia; reflexivity).
  lia.
Qed.

Lemma expiry_eq env :
  expiry env =
  Date.TimeClip
    (Date.UTC (ApproveRoute.zone env)
       (Date.LocalTime (ApproveRoute.zone env) (ApproveRoute.now env) + 72 * Date.msPerHour)).
Proof.
  unfold expiry, Date.new, Date.getHours, Date.setHours. cbn [option_map].
  rewrite MakeDate_plus_72. reflexivity.
Qed.

(** In a zone whose offset does not change, the expiry is 72 hours after
    the instant of the call. *)
Lemma expiry_fixed_zone env offset :
  ApproveRoute.zone env = Date.fixed_zone offset ->
  expiry env = Date.TimeClip (ApproveRoute.now env + 72 * Date.msPerHour).
Proof.
  intros Hz. rewrite expiry_eq, Hz. unfold Date.UTC, Date.LocalTime, Date.fixed_zone.
  cbn. f_equal. lia.
Qed.

End Dates.

(* ===================================================================== *)
(** ** The approval handler, decision by decision *)
(* ===================================================================== *)

Ltac tidy' :=
  repeat (progress (use_equations;
                    cbn [fst snd negb orb andb data error failed succeeded single
                         ApproveRoute.requestId];
                    rewrite ?decide_is_Some_None, ?decide_is_Some_Some)).

Ltac crunch' :=
  tidy';
  repeat (match goal with
          | |- context [match ?x with _ => _ end] => split_on x
          end; tidy').

Ltac approve_step :=
  unfold ApproveRoute.POST, ApproveRoute.POST_body, ApproveRoute.request_json,
    requests_by_id, ApproveRoute.sendOrderEmail, Date.toISOString;
  monad_unfold; crunch';
  first [reflexivity | exfalso; cbn [fst snd] in *; congruence].

Lemma approve_outline_eq env raw st :
  ApproveRoute.POST env raw st = approve_outline env raw st.
Proof.
  unfold approve_outline.
  destruct raw as [[[rid|]]|]; [|reflexivity ..]. cbn [ApproveRoute.requestId].
  destruct (decide (rid = 0%N)) as [->|Hid]; [reflexivity|].
  destruct (ApproveRoute.fetch_fails env) eqn:Hf; [approve_step|].
  destruct (founders_requests st !! rid) as [req|] eqn:Hr; [|approve_step].
  destruct (String.eqb (FoundersRequest.status req) "pending") eqn:Hp; cbn [negb];
    [|approve_step].
  destruct (ApproveRoute.maxAttempts <=? (chosen env st).1.2)%nat eqn:Ha.
  { unfold chosen in Ha. approve_step. }
  destruct (expiry env) as [e|] eqn:He.
  2: { unfold chosen in Ha. unfold expiry in He. approve_step. }
  destruct (ApproveRoute.insert_fails env) eqn:Hi.
  { unfold chosen in Ha. unfold expiry in He. approve_step. }
  unfold after_approval, with_code, with_status, new_code.
  unfold chosen in *. unfold expiry in He. approve_step.
Qed.

(* ===================================================================== *)
(** ** Facts about tables and approvals *)
(* ===================================================================== *)

Section Tables.


Lemma filter_none {A} (P : A -> Prop) `{!forall x, Decision (P x)} (l : list A) :
  (forall x, x ∈ l -> ~ P x) -> filter P l = [].
Proof.
  induction l as [|x l IH]; intros Hno; [reflexivity|].
  rewrite filter_cons_False by (apply Hno; by left).
  apply IH. intros y Hy. apply Hno. by right.
Qed.

(** Issuing a code adds its string to the issued codes. *)
Lemma issued_codes_with_code st c :
  issued_codes (with_code st c) ≡ₚ InviteCode.code c :: issued_codes st.
Proof.
  unfold issued_codes, with_code. cbn [founders_invite_codes].
  rewrite rows_insert. reflexivity.
Qed.

Lemma codes_for_request_with_code st c i :
  codes_for_request i (with_code st c) ≡ₚ
    filter (fun kr => InviteCode.request_id kr.2 = i)
      ((next_id (founders_invite_codes st), c) :: rows (founders_invite_codes st)).
Proof.
  unfold codes_for_request, with_code. cbn [founders_invite_codes].
  rewrite rows_insert. reflexivity.
Qed.

(** A look-up by code that is answered and finds nothing, in a table
    without duplicates, means that the code is not in the table. *)
Lemma lookup_answered_free st c :
  NoDup (issued_codes st) ->
  data (single false (codes_by_code c st)) = None ->
  c ∉ issued_codes st.
Proof.
  unfold issued_codes, codes_by_code.
  induction (rows (founders_invite_codes st)) as [|[k r] l IH]; intros Hnd Hnone;
    [by intros ?%elem_of_nil|].
  rewrite fmap_cons in Hnd. apply NoDup_cons in Hnd as [Hnew Hnd].
  rewrite filter_cons in Hnone. cbn [snd] in *.
  destruct (decide (InviteCode.code r = c)) as [<-|Hne].
  - rewrite filter_none in Hnone; [discriminate|].
    intros [k' r'] Hin Heq. apply Hnew. cbn [snd] in Heq. rewrite <- Heq.
    apply (list_elem_of_fmap_2 (fun kr => InviteCode.code kr.2) _ _ Hin).
  - rewrite fmap_cons. cbn [snd].
    intros [Heq|Hin]%elem_of_cons; [congruence|]. by apply IH.
Qed.

End Tables.

Section ApprovalFacts.

Lemma ensure_unique_with_outcomes env u m st :
  forall remaining c k,
    ApproveRoute.ensure_unique remaining (with_outcomes env u m) st c k =
    ApproveRoute.ensure_unique remaining env st c k.
Proof.
  induction remaining as [|r IH]; intros c k; [reflexivity|].
  cbn [ApproveRoute.ensure_unique]. cbn zeta.
  cbn [with_outcomes ApproveRoute.lookup_fails ApproveRoute.random].
  destruct (data _); [|reflexivity].
  destruct (ApproveRoute.generateInviteCode _ _). apply IH.
Qed.

Lemma chosen_with_outcomes env u m st :
  chosen (with_outcomes env u m) st = chosen env st.
Proof.
  unfold chosen. cbn [with_outcomes ApproveRoute.random].
  destruct (ApproveRoute.generateInviteCode _ _). apply ensure_unique_with_outcomes.
Qed.

(** A declined approval leaves the store as it is. *)
Lemma approve_changes_codes env raw st :
  founders_invite_codes (ApproveRoute.POST env raw st).2 <> founders_invite_codes st ->
  exists rid req e,
    raw = Some {| ApproveRoute.requestId := Some rid |}
    /\ rid <> 0%N
    /\ ApproveRoute.fetch_fails env = false
    /\ founders_requests st !! rid = Some req
    /\ FoundersRequest.status req = "pending"
    /\ ((chosen env st).1.2 < ApproveRoute.maxAttempts)%nat
    /\ expiry env = Some e
    /\ ApproveRoute.insert_fails env = false.
Proof.
  rewrite approve_outline_eq. unfold approve_outline.
  destruct raw as [[[rid|]]|]; cbn [ApproveRoute.requestId snd]; try done.
  destruct (decide (rid = 0%N)) as [->|Hid]; [done|].
  destruct rid as [|p]; [done|].
  destruct (ApproveRoute.fetch_fails env); [done|].
  destruct (founders_requests st !! N.pos p) as [req|] eqn:Hr; [|done].
  destruct (String.eqb (FoundersRequest.status req) "pending") eqn:Hp; [|done].
  cbn [negb].
  destruct (ApproveRoute.maxAttempts <=? (chosen env st).1.2)%nat eqn:Ha; [done|].
  destruct (expiry env) as [e|]; [|done].
  destruct (ApproveRoute.insert_fails env); [done|].
  intros _. exists (N.pos p), req, e.
  apply String.eqb_eq in Hp. apply Nat.leb_gt in Ha.
  repeat split; try done.
Qed.

End ApprovalFacts.

Section ApprovalSteps.

(** What a successful approval did. *)
Lemma approval_inversion env raw st c e m :
  (ApproveRoute.POST env raw st).1 = json (Approved c e m) 200 ->
  exists rid req,
    raw = Some {| ApproveRoute.requestId := Some rid |}
    /\ rid <> 0%N
    /\ founders_requests st !! rid = Some req
    /\ FoundersRequest.status req = "pending"
    /\ c = (chosen env st).1.1
    /\ ((chosen env st).1.2 < ApproveRoute.maxAttempts)%nat
    /\ expiry env = Some e
    /\ (ApproveRoute.POST env raw st).2 = after_approval env st rid req c e.
Proof.
  rewrite approve_outline_eq. unfold approve_outline.
  destruct raw as [[[[|p]|]]|]; cbn [ApproveRoute.requestId fst]; try discriminate.
  destruct (ApproveRoute.fetch_fails env); [discriminate|].
  destruct (founders_requests st !! N.pos p) as [req|] eqn:Hr; [|discriminate].
  destruct (String.eqb (FoundersRequest.status req) "pending") eqn:Hp;
    cbn [negb]; [|discriminate].
  destruct (ApproveRoute.maxAttempts <=? (chosen env st).1.2)%nat eqn:Ha; [discriminate|].
  destruct (expiry env) as [e'|]; [|discriminate].
  destruct (ApproveRoute.insert_fails env); [discriminate|].
  intros [= <- <- _]. exists (N.pos p), req.
  apply String.eqb_eq in Hp. apply Nat.leb_gt in Ha. repeat split; try done.
Qed.

Lemma issued_codes_after_approval env st rid req c e :
  issued_codes (after_approval env st rid req c e) ≡ₚ c :: issued_codes st.
Proof.
  unfold after_approval. destruct (ApproveRoute.update_fails env);
    [|change (issued_codes (with_status ?s _ _)) with (issued_codes s)];
    apply (issued_codes_with_code st (new_code rid req c e)).
Qed.

Lemma codes_for_request_after_approval env st rid req c e :
  codes_for_request rid (after_approval env st rid req c e) ≡ₚ
    (next_id (founders_invite_codes st), new_code rid req c e) :: codes_for_request rid st.
Proof.
  unfold after_approval. destruct (ApproveRoute.update_fails env);
    [|change (codes_for_request ?i (with_status ?s _ _)) with (codes_for_request i s)];
    rewrite codes_for_request_with_code; by rewrite filter_cons_True.
Qed.

(** The code of a successful approval whose look-ups were answered is new
    to a table without duplicates. *)
Lemma approval_code_fresh env raw st c e m :
  (forall i, ApproveRoute.lookup_fails env i = false) ->
  NoDup (issued_codes st) ->
  (ApproveRoute.POST env raw st).1 = json (Approved c e m) 200 ->
  (c ∉ issued_codes st)
  /\ (issued_codes (ApproveRoute.POST env raw st).2 ≡ₚ c :: issued_codes st).
Proof.
  intros Hl Hnd (rid & req & -> & _ & _ & _ & Hc & Ha & _ & ->)%approval_inversion.
  split; [|apply issued_codes_after_approval].
  destruct (chosen_spec env st) as [[Hmax _]|(_ & Hcand & Hfree)]; [lia|].
  apply lookup_answered_free; [exact Hnd|].
  unfold collides in Hfree. rewrite Hl, <- Hcand, <- Hc in Hfree.
  destruct (data _); [exfalso; eauto | reflexivity].
Qed.

(** An approval either leaves the store as it is or succeeds. *)
Lemma approval_declined_or_done env raw st :
  (ApproveRoute.POST env raw st).2 = st
  \/ exists c e m, (ApproveRoute.POST env raw st).1 = json (Approved c e m) 200.
Proof.
  rewrite approve_outline_eq. unfold approve_outline.
  destruct raw as [[[[|p]|]]|]; cbn [ApproveRoute.requestId]; auto.
  destruct (ApproveRoute.fetch_fails env); auto.
  destruct (founders_requests st !! N.pos p); auto.
  destruct (negb _); auto.
  destruct (_ <=? _)%nat; auto.
  destruct (expiry env); auto.
  destruct (ApproveRoute.insert_fails env); eauto.
Qed.

Lemma approval_keeps_codes_unique env raw st :
  (forall i, ApproveRoute.lookup_fails env i = false) ->
  NoDup (issued_codes st) ->
  NoDup (issued_codes (ApproveRoute.POST env raw st).2).
Proof.
  intros Hl Hnd.
  destruct (approval_declined_or_done env raw st) as [->|(c & e & m & Hout)];
    [exact Hnd|].
  destruct (approval_code_fresh env raw st c e m Hl Hnd Hout) as [Hnew Hperm].
  rewrite Hperm. by apply NoDup_cons.
Qed.

Lemma intake_keeps_codes env raw st :
  founders_invite_codes (RequestRoute.POST env raw st).2 = founders_invite_codes st.
Proof.
  destruct (intake_cases env raw st) as [(b & fn & e & ph & pr & -> & Hacc)|[-> _]];
    [|reflexivity].
  rewrite (intake_accepted _ _ _ _ _ _ _ Hacc). reflexivity.
Qed.

End ApprovalSteps.

Section Runs.

Lemma perform_keeps_codes_unique op st :
  match op with
  | Intake _ _ => True
  | Approval env _ => forall i, ApproveRoute.lookup_fails env i = false
  end ->
  NoDup (issued_codes st) -> NoDup (issued_codes (perform op st).2).
Proof.
  destruct op as [env raw|env raw]; cbn [perform].
  - intros _. unfold issued_codes. by rewrite intake_keeps_codes.
  - apply approval_keeps_codes_unique.
Qed.

Lemma run_keeps_codes_unique ops : forall st,
  lookups_answered ops -> NoDup (issued_codes st) -> NoDup (issued_codes (run ops st)).
Proof.
  induction ops as [|op ops IH]; intros st Hans Hnd; [exact Hnd|].
  apply Forall_cons in Hans as [Hop Hans]. cbn [run].
  apply IH; [exact Hans|]. by apply perform_keeps_codes_unique.
Qed.

Lemma alphabet_unambiguous c : in_alphabet c = unambiguous c.
Proof.
  pose proof (all_ascii (fun c => Bool.eqb (in_alphabet c) (unambiguous c))) as H.
  apply Bool.eqb_prop, H. vm_compute. reflexivity.
Qed.

End Runs.


(* ===================================================================== *)
(** ** Facts about requests *)
(* ===================================================================== *)

Section RequestFacts.


Lemma no_request_with_none e s st :
  no_request_with e s st -> requests_by_email_status e s st = [].
Proof.
  intros Hno. unfold requests_by_email_status. apply filter_none.
  intros [k r] Hin%rows_lookup [He Hs]. cbn [snd] in *. by apply (Hno k r).
Qed.

Lemma single_nil {A} fails : data (single fails (@nil A)) = None.
Proof. by destruct fails. Qed.





Lemma set_status_email s r :
  FoundersRequest.email (set_status s r) = FoundersRequest.email r.
Proof. by destruct r. Qed.

Lemma set_status_status s r : FoundersRequest.status (set_status s r) = s.
Proof. by destruct r. Qed.









End RequestFacts.


(* ===================================================================== *)
(** ** The approval properties *)
(* ===================================================================== *)

(** C3.  Once the invite-code row is committed, the approval answers 200
    with the code and the expiry, and the answer is the same whether or not
    the status update fails and whatever happens to the e-mail. *)
Theorem approval_succeeds_once_code_committed env raw st :
  founders_invite_codes (ApproveRoute.POST env raw st).2 <> founders_invite_codes st ->
  exists c e,
    forall update_fails mail,
      (ApproveRoute.POST (with_outcomes env update_fails mail) raw st).1 =
      json (Approved c e "Request approved and invite code generated") 200.
Proof.
  intros (rid & req & e & -> & Hid & Hf & Hr & Hp & Ha & He & Hi)%approve_changes_codes.
  exists (chosen env st).1.1, e. intros u m.
  rewrite approve_outline_eq. unfold approve_outline. cbn [ApproveRoute.requestId].
  destruct rid as [|p]; [done|].
  rewrite chosen_with_outcomes.
  change (expiry (with_outcomes env u m)) with (expiry env).
  cbn [with_outcomes ApproveRoute.fetch_fails ApproveRoute.insert_fails].
  rewrite Hf, Hr, Hp, He, Hi. apply Nat.leb_gt in Ha. rewrite Ha. reflexivity.
Qed.

Lemma approval_succeeds_once_code_committed_witness :
  founders_invite_codes
    (ApproveRoute.POST Sample.calm_approval Sample.approve_1 Sample.one_pending).2
    <> founders_invite_codes Sample.one_pending
  /\ exists c e,
      forall update_fails mail,
        (ApproveRoute.POST (with_outcomes Sample.calm_approval update_fails mail)
           Sample.approve_1 Sample.one_pending).1 =
        json (Approved c e "Request approved and invite code generated") 200.
Proof.
  assert (H : founders_invite_codes
                (ApproveRoute.POST Sample.calm_approval Sample.approve_1 Sample.one_pending).2
              <> founders_invite_codes Sample.one_pending).
  { intros H. apply (f_equal (fun t => t !! 1%N)) in H. vm_compute in H. discriminate. }
  split; [exact H|].
  exact (approval_succeeds_once_code_committed _ _ _ H).
Defined.

(** C4, as amended.  The approval answers 404 exactly when it is given an
    id and either the fetch of the request fails or no request has that id;
    the answer is then [NotFoundError]. *)
Theorem approval_not_found_iff env raw st :
  let r := (ApproveRoute.POST env raw st).1 in
  (http_status r = 404 <->
   exists rid, raw = Some {| ApproveRoute.requestId := Some rid |}
               /\ rid <> 0%N
               /\ (ApproveRoute.fetch_fails env = true
                   \/ founders_requests st !! rid = None))
  /\ (http_status r = 404 -> r = NotFoundError).
Proof.
  cbn zeta. rewrite approve_outline_eq. unfold approve_outline.
  destruct raw as [[[rid|]]|]; cbn [ApproveRoute.requestId].
  2,3: split; [split; [discriminate | intros (? & [=] & _)] | discriminate].
  destruct rid as [|p].
  { split; [split; [discriminate | intros (? & [= <-] & ? & _); done] | discriminate]. }
  destruct (ApproveRoute.fetch_fails env) eqn:Hf.
  { split; [split; [eauto 6 | reflexivity] | reflexivity]. }
  destruct (founders_requests st !! N.pos p) as [req|] eqn:Hr.
  2: { split; [split; [eauto 6 | reflexivity] | reflexivity]. }
  assert (Hno : ~ exists rid, Some {| ApproveRoute.requestId := Some (N.pos p) |}
                              = Some {| ApproveRoute.requestId := Some rid |}
                              /\ rid <> 0%N
                              /\ (false = true \/ founders_requests st !! rid = None)).
  { intros (rid & [= <-] & _ & [?|?]); congruence. }
  destruct (negb _); [split; [split; [discriminate | done] | discriminate]|].
  destruct (_ <=? _)%nat; [split; [split; [discriminate | done] | discriminate]|].
  destruct (expiry env); [|split; [split; [discriminate | done] | discriminate]].
  destruct (ApproveRoute.insert_fails env);
    split; try discriminate; (split; [discriminate | done]).
Qed.

(** C4 as stated fails: when the fetch of an existing request fails, the
    approval answers 404. *)
Lemma approval_fetch_failure_is_404 :
  let env := {| ApproveRoute.fetch_fails := true;
                ApproveRoute.random := fun _ => 0%Q;
                ApproveRoute.lookup_fails := fun _ => false;
                ApproveRoute.now := Sample.saturday_noon;
                ApproveRoute.zone := Date.fixed_zone 0;
                ApproveRoute.insert_fails := false;
                ApproveRoute.update_fails := false;
                ApproveRoute.mail := ApproveRoute.Delivered |} in
  founders_requests Sample.one_pending !! 1%N = Some (Sample.jane_row "pending")
  /\ ApproveRoute.POST env Sample.approve_1 Sample.one_pending
     = (json (Failure "Request not found") 404, Sample.one_pending).
Proof. split; reflexivity. Qed.

(** C6 at a change of the zone offset.  Called at noon of 7 March 2026 in
    New York, the approval stores and returns an expiry 71 hours later. *)
Theorem approval_expiry_across_offset_change :
  let env := {| ApproveRoute.fetch_fails := false;
                ApproveRoute.random := fun _ => 0%Q;
                ApproveRoute.lookup_fails := fun _ => false;
                ApproveRoute.now := Sample.saturday_noon;
                ApproveRoute.zone := Sample.new_york;
                ApproveRoute.insert_fails := false;
                ApproveRoute.update_fails := false;
                ApproveRoute.mail := ApproveRoute.Delivered |} in
  let out := ApproveRoute.POST env Sample.approve_1 Sample.one_pending in
  out.1 = json (Approved "FC-AAAAAAAA" (Sample.saturday_noon + 71 * Date.msPerHour)
                  "Request approved and invite code generated") 200
  /\ InviteCode.expires_at <$> (founders_invite_codes out.2 !! 1%N)
     = Some (Sample.saturday_noon + 71 * Date.msPerHour).
Proof. split; vm_compute; reflexivity. Qed.

(** Where the offset of the zone does not change, the expiry an approval
    returns is its instant plus 72 hours. *)
Lemma approval_expiry_fixed_zone env raw st c e m offset :
  ApproveRoute.zone env = Date.fixed_zone offset ->
  (ApproveRoute.POST env raw st).1 = json (Approved c e m) 200 ->
  e = ApproveRoute.now env + 72 * Date.msPerHour.
Proof.
  intros Hz. rewrite approve_outline_eq. unfold approve_outline.
  rewrite (expiry_fixed_zone env offset Hz).
  destruct raw as [[[[|p]|]]|]; cbn [ApproveRoute.requestId fst]; try discriminate.
  destruct (ApproveRoute.fetch_fails env); [discriminate|].
  destruct (founders_requests st !! N.pos p); [|discriminate].
  destruct (negb _); [discriminate|].
  destruct (_ <=? _)%nat; [discriminate|].
  unfold Date.TimeClip. destruct (_ <? _)%Z; [discriminate|].
  destruct (ApproveRoute.insert_fails env); [discriminate|].
  intros [= _ <- _]. reflexivity.
Qed.

(** C5, as amended.  After a first approval that succeeded and whose status
    update was applied, a second approval of the same request changes
    nothing and, when its fetch is answered, is refused with
    [ConflictError]; if no code row pointed to the request before the first
    approval, exactly one does afterwards. *)
Theorem second_approval_is_refused env1 env2 st rid c e m :
  let body := Some {| ApproveRoute.requestId := Some rid |} in
  let first := ApproveRoute.POST env1 body st in
  let second := ApproveRoute.POST env2 body first.2 in
  first.1 = json (Approved c e m) 200 ->
  ApproveRoute.update_fails env1 = false ->
  codes_for_request rid st = [] ->
  (ApproveRoute.fetch_fails env2 = false -> second.1 = ConflictError_processed)
  /\ second.2 = first.2
  /\ length (codes_for_request rid second.2) = 1%nat.
Proof.
  cbn zeta. intros Hfirst Hupd Hnone.
  destruct (approval_inversion _ _ _ _ _ _ Hfirst)
    as (rid' & req & [= <-] & Hid & Hr & Hp & Hc & Ha & He & Hst).
  assert (Hrow : founders_requests (ApproveRoute.POST env1
                   (Some {| ApproveRoute.requestId := Some rid |}) st).2 !! rid
                 = Some (set_status "approved" req)).
  { rewrite Hst. unfold after_approval. rewrite Hupd.
    cbn [with_status with_code founders_requests].
    rewrite lookup_alter_eq, Hr. reflexivity. }
  assert (Hcodes : length (codes_for_request rid (ApproveRoute.POST env1
                     (Some {| ApproveRoute.requestId := Some rid |}) st).2) = 1%nat).
  { rewrite Hst, codes_for_request_after_approval, Hnone. reflexivity. }
  set (st1 := (ApproveRoute.POST env1 _ st).2) in *.
  rewrite approve_outline_eq. unfold approve_outline. cbn [ApproveRoute.requestId].
  destruct rid as [|p]; [done|].
  rewrite Hrow. destruct req; cbn [set_status FoundersRequest.status String.eqb negb].
  destruct (ApproveRoute.fetch_fails env2); cbn [fst snd]; repeat split; try done.
Qed.

Lemma second_approval_is_refused_witness :
  let body := Sample.approve_1 in
  let first := ApproveRoute.POST Sample.calm_approval body Sample.one_pending in
  let second := ApproveRoute.POST Sample.calm_approval body first.2 in
  second.1 = ConflictError_processed
  /\ second.2 = first.2
  /\ length (codes_for_request 1%N second.2) = 1%nat.
Proof.
  cbn zeta.
  destruct (second_approval_is_refused Sample.calm_approval Sample.calm_approval
              Sample.one_pending 1%N "FC-AAAAAAAA" (Sample.saturday_noon + 72 * Date.msPerHour)
              "Request approved and invite code generated")
    as (H1 & H2 & H3); [reflexivity | reflexivity | reflexivity |].
  split; [apply H1; reflexivity | split; assumption].
Defined.

(** C5 as stated fails: after a first approval that succeeded while its
    status update failed, a second approval succeeds as well, and two code
    rows point to the request. *)
Lemma second_approval_after_failed_update :
  let stale := with_outcomes Sample.calm_approval true ApproveRoute.Delivered in
  let other := {| ApproveRoute.fetch_fails := false;
                  ApproveRoute.random := fun _ => (1 # 2)%Q;
                  ApproveRoute.lookup_fails := fun _ => false;
                  ApproveRoute.now := Sample.saturday_noon;
                  ApproveRoute.zone := Date.fixed_zone 0;
                  ApproveRoute.insert_fails := false;
                  ApproveRoute.update_fails := false;
                  ApproveRoute.mail := ApproveRoute.Delivered |} in
  let first := ApproveRoute.POST stale Sample.approve_1 Sample.one_pending in
  let second := ApproveRoute.POST other Sample.approve_1 first.2 in
  first.1 = json (Approved "FC-AAAAAAAA" 1773162000000
                    "Request approved and invite code generated") 200
  /\ second.1 = json (Approved "FC-SSSSSSSS" 1773162000000
                        "Request approved and invite code generated") 200
  /\ second.1 <> ConflictError_processed
  /\ length (codes_for_request 1%N second.2) = 2%nat.
Proof. repeat split; try (vm_compute; reflexivity). vm_compute. discriminate. Qed.

(** C7.  With [Math.random()] in the unit interval, every code the
    generator makes, and so every code a successful approval returns, is
    [FC-] followed by exactly eight of the 32 symbols
    [ABCDEFGHJKLMNPQRSTUVWXYZ23456789], which are the upper-case letters and
    digits other than I, O, 0 and 1. *)
Theorem invite_code_format random :
  unit_interval random ->
  (forall k, well_formed_code (ApproveRoute.generateInviteCode random k).1)
  /\ (forall env raw st c e m,
         ApproveRoute.random env = random ->
         (ApproveRoute.POST env raw st).1 = json (Approved c e m) 200 ->
         well_formed_code c)
  /\ (forall ch, in_alphabet ch = unambiguous ch)
  /\ length alphabet = 32%nat.
Proof.
  intros Hr. split; [|split; [|split]].
  - intros k. by apply generate_well_formed.
  - intros env raw st c e m <- (rid & req & _ & _ & _ & _ & -> & Ha & _)%approval_inversion.
    destruct (chosen_spec env st) as [[Hmax _]|(_ & -> & _)]; [lia|].
    by apply generate_well_formed.
  - apply alphabet_unambiguous.
  - reflexivity.
Qed.

Lemma invite_code_format_witness :
  unit_interval (fun _ => (1 # 2)%Q)
  /\ well_formed_code (ApproveRoute.generateInviteCode (fun _ => (1 # 2)%Q) 0).1.
Proof.
  assert (H : unit_interval (fun _ => (1 # 2)%Q)) by (intros k; split; reflexivity || discriminate).
  split; [exact H|]. exact (proj1 (invite_code_format _ H) 0%nat).
Defined.

(** An approval fails with [GenerationError] exactly when it fetched a
    pending request and each of its ten uniqueness look-ups returned a row
    for the candidate it was made for; the loop never makes more than ten
    attempts, and a [GenerationError] leaves the store as it was: no code
    row is inserted and the request stays pending. *)
Lemma generation_error_iff env raw st :
  let out := ApproveRoute.POST env raw st in
  (out.1 = GenerationError <->
   exists rid req,
     raw = Some {| ApproveRoute.requestId := Some rid |}
     /\ rid <> 0%N
     /\ ApproveRoute.fetch_fails env = false
     /\ founders_requests st !! rid = Some req
     /\ FoundersRequest.status req = "pending"
     /\ forall i, (i < ApproveRoute.maxAttempts)%nat -> collides env st i)
  /\ (out.1 = GenerationError -> out.2 = st)
  /\ ((chosen env st).1.2 <= ApproveRoute.maxAttempts)%nat
  /\ ApproveRoute.maxAttempts = 10%nat.
Proof.
  cbn zeta. rewrite approve_outline_eq. unfold approve_outline.
  assert (Hle : ((chosen env st).1.2 <= ApproveRoute.maxAttempts)%nat).
  { destruct (chosen_spec env st) as [[-> _]|[? _]]; lia. }
  split; [|split; [|split; [exact Hle | reflexivity]]].
  - destruct raw as [[[[|p]|]]|]; cbn [ApproveRoute.requestId fst];
      try (split; [discriminate | by intros (? & ? & [=] & ?)]).
    { split; [discriminate | by intros (? & ? & [= <-] & ? & ?)]. }
    destruct (ApproveRoute.fetch_fails env) eqn:Hf.
    { split; [discriminate | by intros (? & ? & _ & _ & ? & _)]. }
    destruct (founders_requests st !! N.pos p) as [req|] eqn:Hr.
    2: { split; [discriminate | intros (? & ? & [= <-] & _ & _ & ? & _); congruence]. }
    destruct (String.eqb (FoundersRequest.status req) "pending") eqn:Hp; cbn [negb].
    2: { split; [discriminate|]. intros (? & ? & [= <-] & _ & _ & ? & Hs & _).
         apply String.eqb_neq in Hp. congruence. }
    apply String.eqb_eq in Hp.
    destruct (ApproveRoute.maxAttempts <=? (chosen env st).1.2)%nat eqn:Ha.
    + apply Nat.leb_le in Ha. split; [intros _|reflexivity].
      exists (N.pos p), req. repeat split; try done.
      destruct (chosen_spec env st) as [[_ Hall]|[? _]]; [exact Hall | lia].
    + apply Nat.leb_gt in Ha. split.
      * destruct (expiry env); [destruct (ApproveRoute.insert_fails env)|]; discriminate.
      * intros (? & ? & _ & _ & _ & _ & _ & Hall). exfalso.
        destruct (chosen_spec env st) as [[? _]|(Hlt & _ & Hfree)]; [lia|].
        apply Hfree, Hall, Hlt.
  - destruct raw as [[[[|p]|]]|]; cbn [ApproveRoute.requestId fst snd]; try reflexivity.
    destruct (ApproveRoute.fetch_fails env); [reflexivity|].
    destruct (founders_requests st !! N.pos p); [|reflexivity].
    destruct (negb _); [reflexivity|].
    destruct (_ <=? _)%nat; [reflexivity|].
    destruct (expiry env); [|reflexivity].
    destruct (ApproveRoute.insert_fails env); [reflexivity | discriminate].
Qed.

(** The ten look-ups can all collide: with every random draw equal to 0 all
    candidates are [FC-AAAAAAAA], and once that code is issued the next
    approval gives up. *)
Example generation_error_sample :
  let issued := (ApproveRoute.POST (with_outcomes Sample.calm_approval true ApproveRoute.Delivered)
                   Sample.approve_1 Sample.one_pending).2 in
  ApproveRoute.POST Sample.calm_approval Sample.approve_1 issued = (GenerationError, issued).
Proof. vm_compute. reflexivity. Qed.

(** In a run whose uniqueness look-ups are answered, starting from a table
    without duplicate codes, no two rows of the invite-code table ever
    share a code: every successful approval inserts exactly one code, and
    that code differs from all the codes present before. *)
Lemma codes_stay_unique ops st :
  NoDup (issued_codes st) ->
  lookups_answered ops ->
  NoDup (issued_codes (run ops st))
  /\ forall before env raw after c e m,
       ops = (before ++ Approval env raw :: after)%list ->
       (ApproveRoute.POST env raw (run before st)).1 = json (Approved c e m) 200 ->
       (c ∉ issued_codes (run before st))
       /\ (issued_codes (ApproveRoute.POST env raw (run before st)).2
           ≡ₚ c :: issued_codes (run before st)).
Proof.
  intros Hnd Hans. split; [by apply run_keeps_codes_unique|].
  intros before env raw after c e m -> Hout.
  apply Forall_app in Hans as [Hbefore Hrest].
  apply Forall_cons in Hrest as [Hl _].
  apply approval_code_fresh with (e := e) (m := m); try assumption.
  by apply run_keeps_codes_unique.
Qed.

Section LookupFacts.

(** An answered look-up in a table without duplicate codes finds a row
    exactly when the candidate is in the table. *)
Lemma collides_answered env st i :
  ApproveRoute.lookup_fails env i = false ->
  NoDup (issued_codes st) ->
  collides env st i <-> candidate env i ∈ issued_codes st.
Proof.
  intros Hl Hnd. unfold collides. rewrite Hl. split.
  - intros [x Hx]. unfold single in Hx.
    destruct (codes_by_code (candidate env i) st) as [|y [|z l]] eqn:Hrows;
      try discriminate.
    assert (Hin : y ∈ codes_by_code (candidate env i) st) by (rewrite Hrows; by left).
    unfold codes_by_code in Hin. apply list_elem_of_filter in Hin as [Hcode Hin].
    rewrite <- Hcode. unfold issued_codes.
    apply (list_elem_of_fmap_2 (fun kr => InviteCode.code kr.2) _ _ Hin).
  - intros Hin.
    destruct (data (single false (codes_by_code (candidate env i) st))) eqn:Hd; [eauto|].
    by destruct (lookup_answered_free st _ Hnd Hd).
Qed.

(** An unanswered look-up never finds a row. *)
Lemma collides_unanswered env st i :
  ApproveRoute.lookup_fails env i = true -> ~ collides env st i.
Proof. unfold collides. intros -> [x Hx]. discriminate. Qed.

End LookupFacts.

(** With every look-up answered and no duplicate codes in the table, the
    approval gives up exactly when the first ten candidates are all in the
    table. *)
Lemma generation_error_when_answered env raw st :
  (forall i, ApproveRoute.lookup_fails env i = false) ->
  NoDup (issued_codes st) ->
  (ApproveRoute.POST env raw st).1 = GenerationError <->
  exists rid req,
    raw = Some {| ApproveRoute.requestId := Some rid |}
    /\ rid <> 0%N
    /\ ApproveRoute.fetch_fails env = false
    /\ founders_requests st !! rid = Some req
    /\ FoundersRequest.status req = "pending"
    /\ forall i, (i < ApproveRoute.maxAttempts)%nat -> candidate env i ∈ issued_codes st.
Proof.
  intros Hl Hnd. rewrite (proj1 (generation_error_iff env raw st)).
  split; intros (rid & req & H1 & H2 & H3 & H4 & H5 & Hall);
    exists rid, req; repeat (split; [assumption|]); intros i Hi;
    apply (collides_answered env st i (Hl i) Hnd), Hall, Hi.
Qed.

(** C8.  The uniqueness loop does not establish uniqueness when a look-up
    is not answered.  After the code [FC-AAAAAAAA] has been issued for
    request 1, an approval of request 2 that draws the same code and whose
    look-ups fail finds no collision, although each of its candidates is in
    the table: it answers 200 with that code instead of [GenerationError].
    With the look-ups answered the same approval gives up. *)
Theorem generation_error_missed :
  let first := ApproveRoute.POST Sample.calm_approval Sample.approve_1 two_pending in
  let second := ApproveRoute.POST deaf_approval approve_2 first.2 in
  issued_codes first.2 = ["FC-AAAAAAAA"]
  /\ (forall i, (i <= ApproveRoute.maxAttempts)%nat ->
                candidate deaf_approval i ∈ issued_codes first.2)
  /\ (forall i, ~ collides deaf_approval first.2 i)
  /\ second.1 = json (Approved "FC-AAAAAAAA" 1773162000000
                        "Request approved and invite code generated") 200
  /\ second.1 <> GenerationError
  /\ ApproveRoute.POST Sample.calm_approval approve_2 first.2 = (GenerationError, first.2).
Proof.
  cbn zeta.
  split; [vm_compute; reflexivity|].
  split.
  { intros i Hi. replace (issued_codes _) with ["FC-AAAAAAAA"] by (vm_compute; reflexivity).
    do 11 (destruct i as [|i]; [vm_compute; by left|]).
    unfold ApproveRoute.maxAttempts in Hi. lia. }
  split; [intros i; by apply collides_unanswered|].
  split; [vm_compute; reflexivity|].
  split; [vm_compute; discriminate | vm_compute; reflexivity].
Qed.

(** C9.  After an unanswered uniqueness look-up the approval inserts a code
    without having checked it.  Request 1 is approved with [FC-AAAAAAAA];
    the approval of request 2 draws the same code, its look-up fails, the
    loop leaves with that candidate after no retry, and the table then
    holds the code twice.  A store that refuses the second insert makes
    the approval answer 500; no other code is tried. *)
Theorem approval_after_unanswered_lookup :
  let first := ApproveRoute.POST Sample.calm_approval Sample.approve_1 two_pending in
  let second := ApproveRoute.POST deaf_approval approve_2 first.2 in
  first.1 = json (Approved "FC-AAAAAAAA" 1773162000000
                    "Request approved and invite code generated") 200
  /\ issued_codes first.2 = ["FC-AAAAAAAA"]
  /\ (chosen deaf_approval first.2).1 = ("FC-AAAAAAAA", 0%nat)
  /\ second.1 = json (Approved "FC-AAAAAAAA" 1773162000000
                        "Request approved and invite code generated") 200
  /\ issued_codes second.2 = ["FC-AAAAAAAA"; "FC-AAAAAAAA"]
  /\ ~ NoDup (issued_codes second.2)
  /\ ApproveRoute.POST strict_approval approve_2 first.2 = (StoreError_code, first.2).
Proof.
  cbn zeta. repeat split; try (vm_compute; reflexivity).
  intros Hnd. vm_compute in Hnd. apply NoDup_cons in Hnd as [Hnew _].
  apply Hnew. by left.
Qed.

(* ===================================================================== *)
(** ** What trimming and lower-casing do *)
(* ===================================================================== *)

Section TrimSpec.

Lemma str_app_cons c (s t : string) : String c s ++ t = String c (s ++ t).
Proof. reflexivity. Qed.

Lemma str_app_nil (t : string) : "" ++ t = t.
Proof. reflexivity. Qed.

Lemma str_app_nil_right (s : string) : s ++ "" = s.
Proof. induction s as [|c s IH]; [reflexivity|]. by rewrite str_app_cons, IH. Qed.

Lemma str_app_assoc (a b c : string) : (a ++ b) ++ c = a ++ b ++ c.
Proof. induction a as [|x a IH]; [reflexivity|]. by rewrite !str_app_cons, IH. Qed.

(** [trimStart] splits off a white prefix and stops at the first code unit
    that is not white space. *)
Lemma trimStart_spec s :
  exists l, s = l ++ Js.trimStart s /\ white l
            /\ forall c, first_char (Js.trimStart s) = Some c -> Js.isWhiteSpace c = false.
Proof.
  induction s as [|c s (l & Hs & Hl & Hf)]; [by exists ""|].
  cbn [Js.trimStart]. destruct (Js.isWhiteSpace c) eqn:Hc.
  - exists (String c l). rewrite str_app_cons, <- Hs. split; [reflexivity|].
    split; [|exact Hf]. unfold white. cbn [Js.allChars]. by rewrite Hc.
  - exists "". split; [reflexivity|]. split; [reflexivity|].
    intros c' [= <-]. exact Hc.
Qed.

Lemma trimEnd_step c s :
  Js.trimEnd (String c s) =
  match Js.trimEnd s with
  | EmptyString => if Js.isWhiteSpace c then EmptyString else String c EmptyString
  | t => String c t
  end.
Proof. reflexivity. Qed.

Lemma last_char_cons c d s : last_char (String c (String d s)) = last_char (String d s).
Proof. reflexivity. Qed.

(** [trimEnd] splits off a white suffix and stops at the last code unit
    that is not white space; what it keeps starts as the string does. *)
Lemma trimEnd_spec s :
  exists r, s = Js.trimEnd s ++ r /\ white r
            /\ (forall c, last_char (Js.trimEnd s) = Some c -> Js.isWhiteSpace c = false)
            /\ (forall c, first_char (Js.trimEnd s) = Some c -> first_char s = Some c).
Proof.
  induction s as [|c s (r & Hs & Hr & Hl & Hf)]; [by exists ""|].
  rewrite trimEnd_step. destruct (Js.trimEnd s) as [|d t] eqn:Ht.
  - rewrite str_app_nil in Hs. subst r.
    destruct (Js.isWhiteSpace c) eqn:Hc.
    + exists (String c s). split; [reflexivity|].
      split; [unfold white; cbn [Js.allChars]; by rewrite Hc|]. split; discriminate.
    + exists s. split; [reflexivity|]. split; [exact Hr|].
      split; [by intros c' [= <-] | by intros c' [= <-]].
  - exists r. rewrite str_app_cons, <- Hs. split; [reflexivity|]. split; [exact Hr|].
    split; [rewrite last_char_cons; exact Hl | by intros c' [= <-]].
Qed.

(** What [trim] returns is the string without the white space at its two
    ends. *)
Lemma trim_trims s : trims s (Js.trim s).
Proof.
  unfold Js.trim.
  destruct (trimStart_spec s) as (l & Hs & Hl & Hfirst).
  destruct (trimEnd_spec (Js.trimStart s)) as (r & Hm & Hr & Hlast & Hkeep).
  exists l, r. split; [by rewrite <- Hm|]. split; [exact Hl|]. split; [exact Hr|].
  split; [|exact Hlast]. intros c Hc. apply Hfirst, Hkeep, Hc.
Qed.

Lemma trimStart_white l s : white l -> Js.trimStart (l ++ s) = Js.trimStart s.
Proof.
  unfold white. induction l as [|c l IH]; [reflexivity|].
  cbn [Js.allChars]. intros [Hc Hl]%andb_prop. rewrite str_app_cons. cbn [Js.trimStart].
  rewrite Hc. by apply IH.
Qed.

Lemma trimEnd_white r : white r -> Js.trimEnd r = "".
Proof.
  unfold white. induction r as [|c r IH]; [reflexivity|].
  cbn [Js.allChars]. intros [Hc Hr]%andb_prop. rewrite trimEnd_step, (IH Hr), Hc. reflexivity.
Qed.

Lemma trimEnd_tight t r :
  t <> "" -> (forall c, last_char t = Some c -> Js.isWhiteSpace c = false) ->
  white r -> Js.trimEnd (t ++ r) = t.
Proof.
  intros Hne Hlast Hr. induction t as [|c t IH]; [done|].
  rewrite str_app_cons, trimEnd_step. destruct t as [|d t].
  - rewrite str_app_nil, (trimEnd_white r Hr), (Hlast c eq_refl). reflexivity.
  - rewrite IH; [reflexivity | discriminate |].
    intros c' Hc'. apply Hlast. by rewrite last_char_cons.
Qed.

(** Only one string is [s] without the white space at its ends, and it is
    the one [trim] returns. *)
Lemma trims_unique s t : trims s t -> t = Js.trim s.
Proof.
  intros (l & r & -> & Hl & Hr & Hfirst & Hlast). unfold Js.trim.
  rewrite (trimStart_white l _ Hl). destruct t as [|c t].
  - rewrite str_app_nil. destruct (trimStart_spec r) as (l' & Hr' & _ & _).
    assert (Hw : white (Js.trimStart r)).
    { clear -Hr. unfold white in *. induction r as [|c r IH]; [reflexivity|].
      cbn [Js.allChars] in Hr. apply andb_prop in Hr as [Hc Hr].
      cbn [Js.trimStart]. rewrite Hc. by apply IH. }
    by rewrite (trimEnd_white _ Hw).
  - rewrite str_app_cons. cbn [Js.trimStart]. rewrite (Hfirst c eq_refl), <- str_app_cons.
    by rewrite trimEnd_tight.
Qed.

(** Lower-casing leaves no capital letter. *)
Lemma toLowerCase_no_capital s : no_capital (Js.toLowerCase s).
Proof.
  unfold no_capital. induction s as [|c s IH]; [reflexivity|].
  cbn [Js.toLowerCase Js.allChars]. rewrite IH, andb_true_r.
  revert c. apply all_ascii. vm_compute. reflexivity.
Qed.



End TrimSpec.

(* ===================================================================== *)
(** ** The intake properties *)
(* ===================================================================== *)




Section IntakeFacts.




End IntakeFacts.




(** C10.  A required field that is the empty string is refused like an
    absent one; a required field made of white space only passes the
    required-field check, and when the submission succeeds it is stored as
    the empty string. *)
Theorem blank_required_fields env b st :
  let out := RequestRoute.POST env (Some b) st in
  (forall v, v = JStr "" \/ v = JUndefined ->
     RequestRoute.fullName b = v \/ RequestRoute.phone b = v
       \/ RequestRoute.profession b = v ->
     out = (ValidationError_missing, st))
  /\ (forall w, blank w -> truthy (JStr w) = true)
  /\ (truthy (RequestRoute.fullName b) = true -> truthy (RequestRoute.email b) = true ->
      truthy (RequestRoute.phone b) = true -> truthy (RequestRoute.profession b) = true ->
      out.1 <> ValidationError_missing)
  /\ (forall msg id,
        out.1 = json (Submitted msg id) 200 ->
        exists r,
          founders_requests out.2 !! id = Some r
          /\ (forall w, RequestRoute.fullName b = JStr w -> blank w ->
                        FoundersRequest.full_name r = "")
          /\ (forall w, RequestRoute.phone b = JStr w -> blank w ->
                        FoundersRequest.phone r = "")
          /\ (forall w, RequestRoute.profession b = JStr w -> blank w ->
                        FoundersRequest.profession r = "")).
Proof.
  cbn zeta. split; [|split; [|split]].
  - intros v Hv Hfield.
    unfold RequestRoute.POST, RequestRoute.POST_body, RequestRoute.request_json.
    monad_unfold.
    assert (Hmissing : negb (truthy (RequestRoute.fullName b))
                       || negb (truthy (RequestRoute.email b))
                       || negb (truthy (RequestRoute.phone b))
                       || negb (truthy (RequestRoute.profession b)) = true).
    { assert (Hf : truthy v = false) by (by destruct Hv as [->| ->]).
      destruct Hfield as [->|[->| ->]]; rewrite Hf; cbn [negb];
        rewrite ?orb_true_r; reflexivity. }
    rewrite Hmissing. reflexivity.
  - intros w [Hw _]. cbn [truthy]. apply negb_true_iff, String.eqb_neq, Hw.
  - intros H1 H2 H3 H4.
    unfold RequestRoute.POST, RequestRoute.POST_body, RequestRoute.request_json.
    monad_unfold. rewrite H1, H2, H3, H4. cbn [negb orb].
    unfold ValidationError_missing. crunch; cbn [fst]; discriminate.
  - intros msg id Hout.
    destruct (intake_cases env (Some b) st) as [(b' & fn & e & ph & pr & [= <-] & Hacc)|[_ Hrej]].
    2: { rewrite Hout in Hrej. discriminate. }
    rewrite (intake_accepted _ _ _ _ _ _ _ Hacc) in *. cbn [fst snd] in *.
    injection Hout as _ <-.
    exists (new_request (RequestRoute.clock env) fn e ph pr (RequestRoute.note b)).
    cbn [with_request founders_requests]. rewrite lookup_insert_eq.
    split; [reflexivity|].
    repeat split; intros w Hfield [_ Hw]; cbn;
      [rewrite (acc_fullName _ _ _ _ _ _ _ Hacc) in Hfield
      |rewrite (acc_phone _ _ _ _ _ _ _ Hacc) in Hfield
      |rewrite (acc_profession _ _ _ _ _ _ _ Hacc) in Hfield];
      injection Hfield as ->; by apply trim_white.
Qed.

(** A submission whose name is two spaces is accepted and stored with an
    empty name. *)
Example blank_name_sample :
  let b := {| RequestRoute.fullName := JStr "  ";
              RequestRoute.email := JStr "JANE@X.COM";
              RequestRoute.phone := JStr "+1 555";
              RequestRoute.profession := JStr "Designer";
              RequestRoute.note := JUndefined |} in
  let out := RequestRoute.POST Sample.calm_intake (Some b) empty_store in
  out.1 = json (Submitted "Request submitted successfully" 1) 200
  /\ FoundersRequest.full_name <$> (founders_requests out.2 !! 1%N) = Some "".
Proof. split; vm_compute; reflexivity. Qed.

(* ===================================================================== *)
(** ** More on the intake *)
(* ===================================================================== *)

Ltac intake_refused :=
  right; unfold RequestRoute.POST, RequestRoute.POST_body, RequestRoute.request_json;
  monad_unfold; crunch; split; reflexivity.

Section IntakeAnswers.

(** Every intake call either is accepted or ends in a refusal that leaves
    the store alone. *)
Lemma intake_accepted_or_refused env raw st :
  (exists b fn e ph pr, raw = Some b /\ accepted env b st fn e ph pr)
  \/ refused st (RequestRoute.POST env raw st).
Proof.
  destruct raw as [b|]; [|right; split; reflexivity].
  destruct (RequestRoute.fullName b) as [| |fn|t1 x1] eqn:Hfn; [intake_refused ..| |intake_refused].
  destruct (RequestRoute.email b) as [| |e|t2 x2] eqn:He; [intake_refused ..| |intake_refused].
  destruct (RequestRoute.phone b) as [| |ph|t3 x3] eqn:Hph; [intake_refused ..| |intake_refused].
  destruct (RequestRoute.profession b) as [| |pr|t4 x4] eqn:Hpr; [intake_refused ..| |intake_refused].
  destruct (String.eqb fn "") eqn:Hfn'; [intake_refused|].
  destruct (String.eqb ph "") eqn:Hph'; [intake_refused|].
  destruct (String.eqb pr "") eqn:Hpr'; [intake_refused|].
  destruct (Js.matches RequestRoute.emailRegex e) eqn:Hm; [|intake_refused].
  destruct (data (single (RequestRoute.pending_check_fails env)
            (requests_by_email_status (Js.toLowerCase e) "pending" st))) eqn:Hp;
    [intake_refused|].
  destruct (data (single (RequestRoute.approved_check_fails env)
            (requests_by_email_status (Js.toLowerCase e) "approved" st))) eqn:Ha;
    [intake_refused|].
  destruct (RequestRoute.insert_fails env) eqn:Hi; [intake_refused|].
  assert (Hnt : (exists t x, RequestRoute.note b = JOther t x)
                \/ forall t x, RequestRoute.note b <> JOther t x).
  { destruct (RequestRoute.note b); eauto; right; discriminate. }
  destruct Hnt as [(t & x & Hnt)|Hnt]; [intake_refused|].
  left. exists b, fn, e, ph, pr. split; [reflexivity|].
  apply String.eqb_neq in Hfn', Hph', Hpr'. by constructor.
Qed.

Lemma with_request_changes st r : with_request st r <> st.
Proof.
  intros H. apply (f_equal (fun s => founders_requests s !! next_id (founders_requests st))) in H.
  cbn [with_request founders_requests] in H.
  rewrite lookup_insert_eq, next_id_fresh in H. discriminate.
Qed.

End IntakeAnswers.

(** X1.  The intake answers 200 exactly when it has added a row; the row is
    pending and stored under a new identifier, which is the one returned.
    In every other case the store is left as it was and the answer is a
    failure with a message and status 400 or 500. *)
Theorem intake_answers_200_iff_stored env raw st :
  let out := RequestRoute.POST env raw st in
  (http_status out.1 = 200 <-> out.2 <> st)
  /\ (out.2 <> st ->
      exists id r,
        out.1 = json (Submitted "Request submitted successfully" id) 200
        /\ founders_requests st !! id = None
        /\ FoundersRequest.status r = "pending"
        /\ founders_requests out.2 = <[id := r]> (founders_requests st)
        /\ founders_invite_codes out.2 = founders_invite_codes st)
  /\ (out.2 = st ->
      exists e, e <> ""
                /\ (out.1 = json (Failure e) 400 \/ out.1 = json (Failure e) 500)).
Proof.
  cbn zeta.
  destruct (intake_accepted_or_refused env raw st)
    as [(b & fn & e & ph & pr & -> & Hacc)|[Hst Href]].
  - rewrite (intake_accepted _ _ _ _ _ _ _ Hacc). cbn [fst snd json_ok http_status].
    split; [split; [intros _; apply with_request_changes | reflexivity]|].
    split; [|intros H; by apply with_request_changes in H].
    intros _. exists (next_id (founders_requests st)),
      (new_request (RequestRoute.clock env) fn e ph pr (RequestRoute.note b)).
    split; [reflexivity|].
    split; [apply next_id_fresh|]. split; [|split]; reflexivity.
  - rewrite Hst. unfold is_refusal in Href.
    destruct (RequestRoute.POST env raw st).1 as [[err| | | |] code]; try discriminate.
    cbn [body http_status] in *.
    apply andb_prop in Href as [Herr Hcode]. apply negb_true_iff, String.eqb_neq in Herr.
    apply orb_prop in Hcode.
    split; [split; [intros ->; destruct Hcode as [H|H]; discriminate | done]|].
    split; [done|]. intros _. exists err. split; [exact Herr|].
    destruct Hcode as [->%Z.eqb_eq| ->%Z.eqb_eq]; auto.
Qed.

(** X2.  The intake only adds: every request and every invite code stored
    before the call is stored unchanged after it, and at most one request
    is added. *)
Theorem intake_only_adds env raw st :
  let out := RequestRoute.POST env raw st in
  (forall i r, founders_requests st !! i = Some r ->
               founders_requests out.2 !! i = Some r)
  /\ founders_invite_codes out.2 = founders_invite_codes st
  /\ (size (founders_requests st) <= size (founders_requests out.2)
      <= S (size (founders_requests st)))%nat.
Proof.
  cbn zeta.
  destruct (intake_accepted_or_refused env raw st)
    as [(b & fn & e & ph & pr & -> & Hacc)|[-> _]]; [|repeat split; lia || done].
  rewrite (intake_accepted _ _ _ _ _ _ _ Hacc). cbn [fst snd with_request founders_requests
    founders_invite_codes].
  split; [|split; [reflexivity|]].
  - intros i r Hr. rewrite lookup_insert_ne; [exact Hr|].
    intros <-. rewrite next_id_fresh in Hr. discriminate.
  - rewrite map_size_insert_None by apply next_id_fresh. lia.
Qed.

Section TrimFacts.

Lemma trimEnd_cons c s :
  Js.trimEnd (String c s) =
  match Js.trimEnd s with
  | EmptyString => if Js.isWhiteSpace c then EmptyString else String c EmptyString
  | t => String c t
  end.
Proof. reflexivity. Qed.

Lemma trimEnd_idempotent s : Js.trimEnd (Js.trimEnd s) = Js.trimEnd s.
Proof.
  induction s as [|c s IH]; [reflexivity|]. rewrite trimEnd_cons.
  destruct (Js.trimEnd s) as [|d t] eqn:Ht.
  - destruct (Js.isWhiteSpace c) eqn:Hc; [reflexivity|].
    rewrite trimEnd_cons. cbn [Js.trimEnd]. by rewrite Hc.
  - rewrite trimEnd_cons, IH. reflexivity.
Qed.

Lemma trimStart_head s :
  Js.trimStart s = "" \/ exists c t, Js.trimStart s = String c t /\ Js.isWhiteSpace c = false.
Proof.
  induction s as [|c s IH]; [by left|]. cbn [Js.trimStart].
  destruct (Js.isWhiteSpace c) eqn:Hc; [exact IH|]. right. by exists c, s.
Qed.

Lemma trimEnd_head c t :
  Js.isWhiteSpace c = false -> exists t', Js.trimEnd (String c t) = String c t'.
Proof.
  intros Hc. rewrite trimEnd_cons. destruct (Js.trimEnd t); [rewrite Hc|]; eauto.
Qed.

(** Trimming twice is trimming once. *)
Lemma trim_idempotent s : Js.trim (Js.trim s) = Js.trim s.
Proof.
  unfold Js.trim. destruct (trimStart_head s) as [->|(c & t & -> & Hc)]; [reflexivity|].
  destruct (trimEnd_head c t Hc) as [t' Ht']. rewrite Ht' at 1.
  cbn [Js.trimStart]. rewrite Hc, <- Ht'. apply trimEnd_idempotent.
Qed.

End TrimFacts.

Ltac intake_path :=
  unfold RequestRoute.POST, RequestRoute.POST_body, RequestRoute.request_json;
  monad_unfold.

Ltac required H :=
  destruct H as (->%negb_false_iff & ->%negb_false_iff & ->%negb_false_iff & ->%negb_false_iff);
  cbn [orb].

Lemma required_negb b :
  required_given b ->
  negb (truthy (RequestRoute.fullName b)) = false
  /\ negb (truthy (RequestRoute.email b)) = false
  /\ negb (truthy (RequestRoute.phone b)) = false
  /\ negb (truthy (RequestRoute.profession b)) = false.
Proof. intros (-> & -> & -> & ->). done. Qed.

(** X3.  A submission whose required fields are given but whose address
    does not have the form the pattern asks for is refused with
    [ValidationError]; nothing is stored. *)
Theorem intake_refuses_malformed_email env b st e :
  required_given b ->
  RequestRoute.email b = JStr e ->
  Js.matches RequestRoute.emailRegex e = false ->
  RequestRoute.POST env (Some b) st = (ValidationError_format, st).
Proof.
  intros (H1 & H2 & H3 & H4)%required_negb He Hm. intake_path.
  rewrite H1, H2, H3, H4, He. cbn [orb]. rewrite Hm. reflexivity.
Qed.

Lemma intake_refuses_malformed_email_witness :
  RequestRoute.POST Sample.calm_intake
    (Some {| RequestRoute.fullName := JStr "Jane Doe";
             RequestRoute.email := JStr "jane@x";
             RequestRoute.phone := JStr "+1 555";
             RequestRoute.profession := JStr "Designer";
             RequestRoute.note := JUndefined |}) empty_store
  = (ValidationError_format, empty_store).
Proof.
  apply (intake_refuses_malformed_email _ _ _ "jane@x"); [|reflexivity|reflexivity].
  repeat split; reflexivity.
Defined.

(** X4.  When the pending-row look-up is answered and finds the one pending
    request of the address, the submission is refused with [ConflictError]
    and nothing is stored, whatever the other fields hold. *)
Theorem intake_refuses_pending_duplicate env b st e x :
  required_given b ->
  RequestRoute.email b = JStr e ->
  Js.matches RequestRoute.emailRegex e = true ->
  RequestRoute.pending_check_fails env = false ->
  requests_by_email_status (Js.toLowerCase e) "pending" st = [x] ->
  RequestRoute.POST env (Some b) st = (ConflictError_pending, st).
Proof.
  intros (H1 & H2 & H3 & H4)%required_negb He Hm Hans Hrows. intake_path.
  rewrite H1, H2, H3, H4, He. cbn [orb]. rewrite Hm. cbn [negb].
  rewrite Hans, Hrows. reflexivity.
Qed.

Lemma intake_refuses_pending_duplicate_witness :
  RequestRoute.POST Sample.calm_intake (Some Sample.jane) Sample.one_pending
  = (ConflictError_pending, Sample.one_pending).
Proof.
  apply (intake_refuses_pending_duplicate _ _ _ "JANE@X.COM" (1%N, Sample.jane_row "pending"));
    try reflexivity.
  repeat split; reflexivity.
Defined.

(** X5.  When no pending request is found for the address and the
    approved-row look-up is answered and finds the one approved request of
    the address, the submission is refused with [ConflictError] as already
    approved; nothing is stored. *)
Theorem intake_refuses_approved_duplicate env b st e x :
  required_given b ->
  RequestRoute.email b = JStr e ->
  Js.matches RequestRoute.emailRegex e = true ->
  requests_by_email_status (Js.toLowerCase e) "pending" st = [] ->
  RequestRoute.approved_check_fails env = false ->
  requests_by_email_status (Js.toLowerCase e) "approved" st = [x] ->
  RequestRoute.POST env (Some b) st = (ConflictError_approved, st).
Proof.
  intros (H1 & H2 & H3 & H4)%required_negb He Hm Hnone Hans Hrows. intake_path.
  rewrite H1, H2, H3, H4, He. cbn [orb]. rewrite Hm. cbn [negb].
  rewrite Hnone, single_nil, Hans, Hrows. reflexivity.
Qed.

Lemma intake_refuses_approved_duplicate_witness :
  let st := (ApproveRoute.POST Sample.calm_approval Sample.approve_1 Sample.one_pending).2 in
  RequestRoute.POST Sample.calm_intake (Some Sample.jane) st = (ConflictError_approved, st).
Proof.
  cbn zeta.
  apply (intake_refuses_approved_duplicate _ _ _ "JANE@X.COM" (1%N, Sample.jane_row "approved"));
    try reflexivity.
  repeat split; reflexivity.
Defined.

(** X6.  When the store refuses the insert of a valid submission that is
    no duplicate, the intake answers 500 with the message for a failed
    submission and nothing is stored. *)
Theorem intake_insert_failure env b st fn e ph pr :
  valid b fn e ph pr ->
  non_duplicate e st ->
  RequestRoute.insert_fails env = true ->
  RequestRoute.POST env (Some b) st = (StoreError_submit, st).
Proof.
  intros [[Hfn Hfn'] [He Hm] [Hph Hph'] [Hpr Hpr'] Hnt] [Hp Ha] Hi. intake_path.
  assert (He' : e <> "") by (by apply email_not_empty).
  apply String.eqb_neq in Hfn', Hph', Hpr', He'.
  rewrite Hfn, He, Hph, Hpr, Hi. cbn [truthy]. rewrite Hfn', Hph', Hpr', He'.
  cbn [negb orb]. rewrite Hm. cbn [negb].
  rewrite (no_request_with_none _ _ _ Hp), (no_request_with_none _ _ _ Ha), !single_nil.
  rewrite !decide_is_Some_None.
  destruct (RequestRoute.note b) as [| |n|t x] eqn:Hn; try reflexivity.
  by destruct (Hnt t x).
Qed.

Lemma intake_insert_failure_witness :
  let env := {| RequestRoute.pending_check_fails := false;
                RequestRoute.approved_check_fails := false;
                RequestRoute.insert_fails := true;
                RequestRoute.clock := 1000 |} in
  RequestRoute.POST env (Some Sample.jane) empty_store = (StoreError_submit, empty_store).
Proof.
  cbn zeta.
  apply (intake_insert_failure _ _ _ "Jane Doe" "JANE@X.COM" "+1 555" "Designer");
    [|split; intros i r H; cbn in H; rewrite lookup_empty in H; discriminate|reflexivity].
  constructor; try (split; [reflexivity | discriminate || reflexivity]). discriminate.
Defined.

(** X7.  A submission whose required fields are all truthy and whose
    address is a well-formed string without a duplicate, but in which the
    name, the phone or the profession is not a string, is answered with the
    generic 500 and nothing is stored: the call of [trim] on the value
    throws. *)
Theorem intake_non_string_field env b st e :
  required_given b ->
  RequestRoute.email b = JStr e ->
  Js.matches RequestRoute.emailRegex e = true ->
  data (single (RequestRoute.pending_check_fails env)
          (requests_by_email_status (Js.toLowerCase e) "pending" st)) = None ->
  data (single (RequestRoute.approved_check_fails env)
          (requests_by_email_status (Js.toLowerCase e) "approved" st)) = None ->
  (forall s, RequestRoute.fullName b <> JStr s)
  \/ (forall s, RequestRoute.phone b <> JStr s)
  \/ (forall s, RequestRoute.profession b <> JStr s) ->
  RequestRoute.POST env (Some b) st = (UnexpectedError, st).
Proof.
  intros (H1 & H2 & H3 & H4)%required_negb He Hm Hp Ha Hnot. intake_path.
  rewrite H1, H2, H3, H4, He. cbn [orb]. rewrite Hm. cbn [negb].
  rewrite Hp, Ha, !decide_is_Some_None.
  destruct (RequestRoute.fullName b) as [| |fn|t1 x1] eqn:Hfn; try reflexivity.
  destruct (RequestRoute.phone b) as [| |ph|t2 x2] eqn:Hph; try reflexivity.
  destruct (RequestRoute.profession b) as [| |pr|t3 x3] eqn:Hpr; try reflexivity.
  exfalso. destruct Hnot as [H|[H|H]]; eapply H; reflexivity.
Qed.

Lemma intake_non_string_field_witness :
  RequestRoute.POST Sample.calm_intake
    (Some {| RequestRoute.fullName := JOther true (Some "42");
             RequestRoute.email := JStr "jane@x.com";
             RequestRoute.phone := JStr "+1 555";
             RequestRoute.profession := JStr "Designer";
             RequestRoute.note := JUndefined |}) empty_store
  = (UnexpectedError, empty_store).
Proof.
  apply (intake_non_string_field _ _ _ "jane@x.com"); try reflexivity.
  - repeat split; reflexivity.
  - left. discriminate.
Defined.

(** X8.  Every row the intake stores is the submission normalised: name,
    phone and profession are the submitted strings without the white space
    at their two ends, the address is the submitted one in lower case,
    without capital letters and without white space at its ends, the note
    is absent or the submitted note without the white space at its ends
    and not empty, the status is pending and the creation time is the
    clock of the call. *)
Theorem intake_stores_normalised_row env raw st msg id :
  (RequestRoute.POST env raw st).1 = json (Submitted msg id) 200 ->
  exists r b fn e ph pr,
    founders_requests (RequestRoute.POST env raw st).2 !! id = Some r
    /\ raw = Some b
    /\ (RequestRoute.fullName b = JStr fn /\ RequestRoute.email b = JStr e
        /\ RequestRoute.phone b = JStr ph /\ RequestRoute.profession b = JStr pr)
    /\ trims fn (FoundersRequest.full_name r)
    /\ trims ph (FoundersRequest.phone r)
    /\ trims pr (FoundersRequest.profession r)
    /\ trims (Js.toLowerCase e) (FoundersRequest.email r)
    /\ no_capital (FoundersRequest.email r)
    /\ FoundersRequest.note r <> Some ""
    /\ (forall n, FoundersRequest.note r = Some n ->
          exists n', RequestRoute.note b = JStr n' /\ trims n' n)
    /\ FoundersRequest.status r = "pending"
    /\ FoundersRequest.created_at r = RequestRoute.clock env.
Proof.
  intros Hout.
  destruct (intake_accepted_or_refused env raw st)
    as [(b & fn & e & ph & pr & -> & Hacc)|[_ Href]].
  2: { rewrite Hout in Href. discriminate. }
  rewrite (intake_accepted _ _ _ _ _ _ _ Hacc) in *. cbn [fst snd] in *.
  injection Hout as _ <-.
  exists (new_request (RequestRoute.clock env) fn e ph pr (RequestRoute.note b)),
    b, fn, e, ph, pr.
  cbn [with_request founders_requests]. rewrite lookup_insert_eq.
  pose proof (acc_format _ _ _ _ _ _ _ Hacc) as Hm.
  unfold new_request.
  cbn [FoundersRequest.full_name FoundersRequest.phone FoundersRequest.profession
       FoundersRequest.email FoundersRequest.note FoundersRequest.status
       FoundersRequest.created_at].
  split; [reflexivity|]. split; [reflexivity|].
  split; [destruct Hacc; done|].
  split; [apply trim_trims|]. split; [apply trim_trims|]. split; [apply trim_trims|].
  split; [apply trim_trims|].
  split; [rewrite (email_trim_lower e Hm); apply toLowerCase_no_capital|].
  split; [|split; [|split; reflexivity]].
  - unfold trimmed_note. destruct (RequestRoute.note b) as [| |n|]; try discriminate.
    destruct (String.eqb (Js.trim n) "") eqn:Hn; [discriminate|].
    intros [= H]. rewrite H in Hn. discriminate.
  - intros n. unfold trimmed_note.
    destruct (RequestRoute.note b) as [| |n'|]; try discriminate.
    destruct (String.eqb (Js.trim n') ""); [discriminate|].
    intros [= <-]. exists n'. split; [reflexivity | apply trim_trims].
Qed.

Lemma intake_stores_normalised_row_witness :
  exists r,
    founders_requests (RequestRoute.POST Sample.calm_intake (Some padded_jane) empty_store).2
      !! 1%N = Some r
    /\ trims "  Jane Doe " (FoundersRequest.full_name r)
    /\ trims " +1 555  " (FoundersRequest.phone r)
    /\ no_capital (FoundersRequest.email r).
Proof.
  destruct (intake_stores_normalised_row Sample.calm_intake (Some padded_jane) empty_store
              "Request submitted successfully" 1%N)
    as (r & b & fn & e & ph & pr & Hr & [= <-] & (Hfn & _ & Hph & _) & Hn & Hp & _ & _ & Hc & _);
    [reflexivity|].
  cbn in Hfn, Hph. injection Hfn as <-. injection Hph as <-.
  exists r. done.
Defined.

(* ===================================================================== *)
(** ** The status look-up *)
(* ===================================================================== *)

Section LatestFacts.

Local Abbreviation newer := (fun (best kr : N * FoundersRequest.t) =>
  if (FoundersRequest.created_at best.2 <? FoundersRequest.created_at kr.2)%Z
  then kr else best).

Lemma foldl_newer (l : list (N * FoundersRequest.t)) : forall acc,
  let best := foldl newer acc l in
  (best = acc \/ best ∈ l)
  /\ FoundersRequest.created_at acc.2 <= FoundersRequest.created_at best.2
  /\ forall y, y ∈ l -> FoundersRequest.created_at y.2 <= FoundersRequest.created_at best.2.
Proof.
  induction l as [|x l IH]; intros acc; cbn zeta; cbn [foldl].
  - split; [by left|]. split; [lia|]. intros y Hy. inversion Hy.
  - specialize (IH (newer acc x)). cbn zeta in IH. destruct IH as (Hin & Hacc & Hall).
    destruct (Z.ltb_spec (FoundersRequest.created_at acc.2) (FoundersRequest.created_at x.2)).
    + split; [right; destruct Hin as [->|Hin]; [by left | by right]|].
      split; [lia|]. intros y [->|Hy]%elem_of_cons; [exact Hacc | by apply Hall].
    + split; [destruct Hin as [->|Hin]; [by left | right; by right]|].
      split; [exact Hacc|]. intros y [->|Hy]%elem_of_cons; [lia | by apply Hall].
Qed.

(** [latest] picks a row of the list that no row of the list is newer
    than, and picks nothing only from the empty list. *)
Lemma latest_spec (l : list (N * FoundersRequest.t)) :
  match latest l with
  | [] => l = []
  | x :: rest =>
      rest = [] /\ x ∈ l
      /\ forall y, y ∈ l -> FoundersRequest.created_at y.2 <= FoundersRequest.created_at x.2
  end.
Proof.
  destruct l as [|x l]; [reflexivity|]. cbn [latest].
  destruct (foldl_newer l x) as (Hin & Hacc & Hall). cbn zeta in *.
  split; [reflexivity|]. split.
  - destruct Hin as [->|Hin]; [by left | by right].
  - intros y [->|Hy]%elem_of_cons; [exact Hacc | by apply Hall].
Qed.

End LatestFacts.

(** X9.  The status look-up never writes to the store.  It answers 400
    exactly when no address or an empty one is given, 500 exactly when an
    address is given and the store fails, and 200 otherwise. *)
Theorem status_lookup_answers select_fails email st :
  let out := RequestRoute.GET select_fails email st in
  out.2 = st
  /\ (http_status out.1 = 400 <-> email = None \/ email = Some "")
  /\ (http_status out.1 = 500 <->
      exists e, email = Some e /\ e <> "" /\ select_fails = true)
  /\ (http_status out.1 = 200 <->
      exists e, email = Some e /\ e <> "" /\ select_fails = false).
Proof.
  cbn zeta. unfold RequestRoute.GET, RequestRoute.GET_body.
  destruct email as [[|c e]|]; monad_unfold.
  - repeat split; try discriminate; auto; by intros (? & [= <-] & ? & _).
  - destruct select_fails.
    + repeat split; try discriminate; eauto; try (by intros [[=]|[=]]);
        by intros (? & _ & _ & [=]).
    + destruct (latest _); cbn [fst snd json_ok http_status];
        repeat split; try discriminate; eauto; try (by intros [[=]|[=]]);
        by intros (? & _ & _ & [=]).
  - repeat split; try discriminate; auto; by intros (? & [=] & _).
Qed.

(** X10.  An answered status look-up for a non-empty address compares the
    lower-cased address with the stored ones: it reports no request exactly
    when no request is stored for it, and otherwise reports the status and
    creation time of a stored request for it that none of its requests is
    newer than. *)
Theorem status_lookup_reports_latest e st :
  e <> "" ->
  let out := RequestRoute.GET false (Some e) st in
  (out.1 = json NoRequest 200 <->
   forall i r, founders_requests st !! i = Some r ->
               FoundersRequest.email r <> Js.toLowerCase e)
  /\ (out.1 <> json NoRequest 200 ->
      exists i r,
        founders_requests st !! i = Some r
        /\ FoundersRequest.email r = Js.toLowerCase e
        /\ out.1 = json (HasRequest (FoundersRequest.status r)
                           (FoundersRequest.created_at r)) 200
        /\ forall j r', founders_requests st !! j = Some r' ->
                        FoundersRequest.email r' = Js.toLowerCase e ->
                        FoundersRequest.created_at r' <= FoundersRequest.created_at r).
Proof.
  intros He. cbn zeta. unfold RequestRoute.GET, RequestRoute.GET_body.
  destruct e as [|c e]; [done|]. monad_unfold.
  pose proof (latest_spec (requests_by_email (Js.toLowerCase (String c e)) st)) as Hl.
  destruct (latest _) as [|[i r] rest]; cbn [fst snd json_ok].
  - split.
    + split; [intros _ i r Hr Heq|done].
      assert (Hin : (i, r) ∈ requests_by_email (Js.toLowerCase (String c e)) st).
      { apply list_elem_of_filter. split; [exact Heq | by apply rows_lookup]. }
      rewrite Hl in Hin. inversion Hin.
    + done.
  - destruct Hl as (_ & Hin & Hmax).
    apply list_elem_of_filter in Hin as [Heq Hin%rows_lookup]. cbn [snd] in Heq.
    split.
    + split; [discriminate|]. intros Hno. by destruct (Hno i r Hin).
    + intros _. exists i, r. repeat split; try done.
      intros j r' Hr' Heq'. apply (Hmax (j, r')).
      apply list_elem_of_filter. split; [exact Heq' | by apply rows_lookup].
Qed.

Lemma status_lookup_reports_latest_witness :
  "Jane@X.com" <> ""
  /\ exists i r,
       founders_requests Sample.one_pending !! i = Some r
       /\ FoundersRequest.email r = Js.toLowerCase "Jane@X.com"
       /\ (RequestRoute.GET false (Some "Jane@X.com") Sample.one_pending).1
          = json (HasRequest (FoundersRequest.status r) (FoundersRequest.created_at r)) 200
       /\ forall j r', founders_requests Sample.one_pending !! j = Some r' ->
                       FoundersRequest.email r' = Js.toLowerCase "Jane@X.com" ->
                       FoundersRequest.created_at r' <= FoundersRequest.created_at r.
Proof.
  assert (H : "Jane@X.com" <> "") by discriminate.
  split; [exact H|].
  apply (proj2 (status_lookup_reports_latest "Jane@X.com" Sample.one_pending H)).
  vm_compute. discriminate.
Defined.

(* ===================================================================== *)
(** ** More on the approval *)
(* ===================================================================== *)

Section ApprovalEffects.

Lemma after_approval_changes env st rid req c e : after_approval env st rid req c e <> st.
Proof.
  intros H.
  apply (f_equal (fun s => founders_invite_codes s !! next_id (founders_invite_codes st))) in H.
  unfold after_approval in H.
  destruct (ApproveRoute.update_fails env);
    cbn [with_status with_code founders_invite_codes] in H;
    rewrite lookup_insert_eq, next_id_fresh in H; discriminate.
Qed.

Lemma after_approval_codes env st rid req c e :
  founders_invite_codes (after_approval env st rid req c e)
  = <[next_id (founders_invite_codes st) := new_code rid req c e]> (founders_invite_codes st).
Proof. unfold after_approval. by destruct (ApproveRoute.update_fails env). Qed.

Lemma after_approval_requests env st rid req c e :
  founders_requests (after_approval env st rid req c e)
  = if ApproveRoute.update_fails env then founders_requests st
    else alter (set_status "approved") rid (founders_requests st).
Proof. unfold after_approval. by destruct (ApproveRoute.update_fails env). Qed.

(** The first candidate is taken when its look-up finds nothing. *)
Lemma chosen_first env st :
  ~ collides env st 0 -> chosen env st = (candidate env 0, 0%nat, 8%nat).
Proof.
  intros Hfree. rewrite chosen_eq. unfold ApproveRoute.maxAttempts.
  cbn [ApproveRoute.ensure_unique]. cbn zeta. unfold ApproveRoute.maxAttempts.
  cbn [Nat.sub]. unfold collides in Hfree.
  destruct (data _); [exfalso; eauto | reflexivity].
Qed.

End ApprovalEffects.

(** X11.  The approval answers 200 exactly when it has changed the store,
    and it then has added exactly one invite code; its other answers are
    400, 404 and 500 and leave the store as it was. *)
Theorem approval_answers_200_iff_stored env raw st :
  let out := ApproveRoute.POST env raw st in
  (http_status out.1 = 200 <-> out.2 <> st)
  /\ (out.2 <> st ->
      size (founders_invite_codes out.2) = S (size (founders_invite_codes st)))
  /\ (http_status out.1 = 200 \/ http_status out.1 = 400
      \/ http_status out.1 = 404 \/ http_status out.1 = 500).
Proof.
  cbn zeta. rewrite approve_outline_eq. unfold approve_outline.
  assert (Hsame : forall r : Response,
             http_status r <> 200 ->
             (http_status r = 400 \/ http_status r = 404 \/ http_status r = 500) ->
             (http_status (r, st).1 = 200 <-> (r, st).2 <> st)
             /\ ((r, st).2 <> st ->
                 size (founders_invite_codes (r, st).2) = S (size (founders_invite_codes st)))
             /\ (http_status (r, st).1 = 200 \/ http_status (r, st).1 = 400
                 \/ http_status (r, st).1 = 404 \/ http_status (r, st).1 = 500)).
  { intros r Hr Hcode. cbn [fst snd]. repeat split; try done. by right. }
  destruct raw as [[[[|p]|]]|]; cbn [ApproveRoute.requestId];
    try (apply Hsame; cbn; [discriminate | auto]).
  destruct (ApproveRoute.fetch_fails env); [apply Hsame; cbn; [discriminate | auto]|].
  destruct (founders_requests st !! N.pos p); [|apply Hsame; cbn; [discriminate | auto]].
  destruct (negb _); [apply Hsame; cbn; [discriminate | auto]|].
  destruct (_ <=? _)%nat; [apply Hsame; cbn; [discriminate | auto]|].
  destruct (expiry env); [|apply Hsame; cbn; [discriminate | auto]].
  destruct (ApproveRoute.insert_fails env); [apply Hsame; cbn; [discriminate | auto]|].
  cbn [fst snd json_ok http_status].
  split; [split; [intros _; apply after_approval_changes | reflexivity]|].
  split; [|by left]. intros _.
  rewrite after_approval_codes. apply map_size_insert_None, next_id_fresh.
Qed.

(** X12.  The approval answers 400 in two cases only: the id is missing,
    [null] or zero ([ValidationError]), or the request was fetched and is
    not pending ([ConflictError]). *)
Theorem approval_bad_request_iff env raw st :
  let r := (ApproveRoute.POST env raw st).1 in
  (r = ValidationError_id <->
   exists b, raw = Some b
             /\ (ApproveRoute.requestId b = None \/ ApproveRoute.requestId b = Some 0%N))
  /\ (r = ConflictError_processed <->
      exists rid req,
        raw = Some {| ApproveRoute.requestId := Some rid |}
        /\ rid <> 0%N
        /\ ApproveRoute.fetch_fails env = false
        /\ founders_requests st !! rid = Some req
        /\ FoundersRequest.status req <> "pending")
  /\ (http_status r = 400 -> r = ValidationError_id \/ r = ConflictError_processed).
Proof.
  cbn zeta. rewrite approve_outline_eq. unfold approve_outline.
  destruct raw as [[[[|p]|]]|]; cbn [ApproveRoute.requestId fst].
  - repeat split; try discriminate; eauto; try by intros (? & ? & [= <-] & ? & _).
  - destruct (ApproveRoute.fetch_fails env) eqn:Hf.
    { repeat split; try discriminate;
        try (by intros (? & [= <-] & [[=]|[=]])); by intros (? & ? & _ & _ & [=] & _). }
    destruct (founders_requests st !! N.pos p) as [req|] eqn:Hr.
    2: { repeat split; try discriminate;
           try (by intros (? & [= <-] & [[=]|[=]]));
           intros (? & ? & [= <-] & _ & _ & ? & _); congruence. }
    destruct (String.eqb (FoundersRequest.status req) "pending") eqn:Hp; cbn [negb].
    + apply String.eqb_eq in Hp.
      assert (Hno : ~ exists rid req',
                 Some {| ApproveRoute.requestId := Some (N.pos p) |}
                 = Some {| ApproveRoute.requestId := Some rid |}
                 /\ rid <> 0%N /\ false = false
                 /\ founders_requests st !! rid = Some req'
                 /\ FoundersRequest.status req' <> "pending").
      { intros (? & ? & [= <-] & _ & _ & ? & ?). congruence. }
      assert (Hno' : ~ exists b, Some {| ApproveRoute.requestId := Some (N.pos p) |} = Some b
                 /\ (ApproveRoute.requestId b = None \/ ApproveRoute.requestId b = Some 0%N)).
      { by intros (? & [= <-] & [[=]|[=]]). }
      destruct (_ <=? _)%nat; [|destruct (expiry env);
        [destruct (ApproveRoute.insert_fails env)|]];
        repeat split; try discriminate; try done.
    + apply String.eqb_neq in Hp.
      repeat split; try discriminate; auto;
        try (by intros (? & [= <-] & [[=]|[=]])).
      intros _. exists (N.pos p), req. done.
  - repeat split; try discriminate; eauto; by intros (? & ? & [=] & _).
  - repeat split; try discriminate; try (by intros (? & [=] & _)); by intros (? & ? & [=] & _).
Qed.

(** X13.  A successful approval adds one invite code under a new key and
    leaves the older codes as they were; the new row holds the returned
    code and expiry, the id of the request, and the address and phone of
    the request as they were stored. *)
Theorem approval_stores_code_row env raw st c e m :
  (ApproveRoute.POST env raw st).1 = json (Approved c e m) 200 ->
  exists rid req key,
    raw = Some {| ApproveRoute.requestId := Some rid |}
    /\ founders_requests st !! rid = Some req
    /\ founders_invite_codes st !! key = None
    /\ founders_invite_codes (ApproveRoute.POST env raw st).2
       = <[key := {| InviteCode.code := c;
                     InviteCode.email := FoundersRequest.email req;
                     InviteCode.phone := FoundersRequest.phone req;
                     InviteCode.request_id := rid;
                     InviteCode.expires_at := e |}]> (founders_invite_codes st).
Proof.
  intros (rid & req & -> & _ & Hr & _ & _ & _ & _ & ->)%approval_inversion.
  exists rid, req, (next_id (founders_invite_codes st)).
  split; [reflexivity|]. split; [exact Hr|]. split; [apply next_id_fresh|].
  apply after_approval_codes.
Qed.

Lemma approval_stores_code_row_witness :
  exists rid req key,
    Sample.approve_1 = Some {| ApproveRoute.requestId := Some rid |}
    /\ founders_requests Sample.one_pending !! rid = Some req
    /\ founders_invite_codes Sample.one_pending !! key = None
    /\ founders_invite_codes
         (ApproveRoute.POST Sample.calm_approval Sample.approve_1 Sample.one_pending).2
       = <[key := {| InviteCode.code := "FC-AAAAAAAA";
                     InviteCode.email := FoundersRequest.email req;
                     InviteCode.phone := FoundersRequest.phone req;
                     InviteCode.request_id := rid;
                     InviteCode.expires_at := 1773162000000 |}]>
           (founders_invite_codes Sample.one_pending).
Proof.
  apply (approval_stores_code_row Sample.calm_approval Sample.approve_1 Sample.one_pending
           "FC-AAAAAAAA" 1773162000000 "Request approved and invite code generated").
  reflexivity.
Defined.

(** X14.  A successful approval touches no request but the approved one.
    Of that request it changes the status only: to approved when the status
    update is applied, not at all when the update fails. *)
Theorem approval_updates_status_only env raw st c e m :
  (ApproveRoute.POST env raw st).1 = json (Approved c e m) 200 ->
  exists rid req,
    raw = Some {| ApproveRoute.requestId := Some rid |}
    /\ founders_requests st !! rid = Some req
    /\ FoundersRequest.status req = "pending"
    /\ (forall i, i <> rid ->
                  founders_requests (ApproveRoute.POST env raw st).2 !! i
                  = founders_requests st !! i)
    /\ founders_requests (ApproveRoute.POST env raw st).2 !! rid
       = Some (if ApproveRoute.update_fails env then req
               else {| FoundersRequest.full_name := FoundersRequest.full_name req;
                       FoundersRequest.email := FoundersRequest.email req;
                       FoundersRequest.phone := FoundersRequest.phone req;
                       FoundersRequest.profession := FoundersRequest.profession req;
                       FoundersRequest.note := FoundersRequest.note req;
                       FoundersRequest.status := "approved";
                       FoundersRequest.created_at := FoundersRequest.created_at req |}).
Proof.
  intros (rid & req & -> & _ & Hr & Hp & _ & _ & _ & ->)%approval_inversion.
  exists rid, req. split; [reflexivity|]. split; [exact Hr|]. split; [exact Hp|].
  rewrite after_approval_requests. destruct (ApproveRoute.update_fails env).
  - split; [reflexivity | exact Hr].
  - split; [intros i Hi; by rewrite lookup_alter_ne|].
    rewrite lookup_alter_eq, Hr. by destruct req.
Qed.

Lemma approval_updates_status_only_witness :
  exists rid req,
    Sample.approve_1 = Some {| ApproveRoute.requestId := Some rid |}
    /\ founders_requests Sample.one_pending !! rid = Some req
    /\ FoundersRequest.status req = "pending"
    /\ FoundersRequest.status <$>
         (founders_requests
            (ApproveRoute.POST Sample.calm_approval Sample.approve_1 Sample.one_pending).2
          !! rid) = Some "approved".
Proof.
  destruct (approval_updates_status_only Sample.calm_approval Sample.approve_1
              Sample.one_pending "FC-AAAAAAAA" 1773162000000
              "Request approved and invite code generated")
    as (rid & req & H1 & H2 & H3 & _ & H5); [reflexivity|].
  exists rid, req. split; [exact H1|]. split; [exact H2|]. split; [exact H3|].
  rewrite H5. reflexivity.
Defined.

(** X15.  When the store refuses the insert of the invite code, the
    approval answers 500 with the message for a failed code creation and
    changes nothing: the request stays pending and no code is stored. *)
Theorem approval_insert_failure env st rid req e :
  rid <> 0%N ->
  ApproveRoute.fetch_fails env = false ->
  founders_requests st !! rid = Some req ->
  FoundersRequest.status req = "pending" ->
  ~ collides env st 0 ->
  expiry env = Some e ->
  ApproveRoute.insert_fails env = true ->
  ApproveRoute.POST env (Some {| ApproveRoute.requestId := Some rid |}) st
  = (StoreError_code, st).
Proof.
  intros Hid Hf Hr Hp Hfree He Hi.
  rewrite approve_outline_eq. unfold approve_outline. cbn [ApproveRoute.requestId].
  destruct rid as [|p]; [done|].
  rewrite Hf, Hr, Hp, (chosen_first env st Hfree), He, Hi. reflexivity.
Qed.

Lemma approval_insert_failure_witness :
  let env := {| ApproveRoute.fetch_fails := false;
                ApproveRoute.random := fun _ => 0%Q;
                ApproveRoute.lookup_fails := fun _ => false;
                ApproveRoute.now := Sample.saturday_noon;
                ApproveRoute.zone := Date.fixed_zone 0;
                ApproveRoute.insert_fails := true;
                ApproveRoute.update_fails := false;
                ApproveRoute.mail := ApproveRoute.Delivered |} in
  ApproveRoute.POST env Sample.approve_1 Sample.one_pending
  = (StoreError_code, Sample.one_pending).
Proof.
  cbn zeta.
  apply (approval_insert_failure _ _ _ (Sample.jane_row "pending") 1773162000000);
    try reflexivity; try discriminate.
  intros [x Hx]. vm_compute in Hx. discriminate.
Defined.

(* ===================================================================== *)
(** ** The uniqueness loop and the code space *)
(* ===================================================================== *)

Section LoopDraws.
Variables (env : ApproveRoute.Env) (st : Store).

(** Every candidate costs eight random draws. *)
Lemma ensure_unique_draws remaining :
  (remaining <= ApproveRoute.maxAttempts)%nat ->
  let i := (ApproveRoute.maxAttempts - remaining)%nat in
  let result := ApproveRoute.ensure_unique remaining env st (candidate env i) (8 * S i) in
  result.2 = (8 * S result.1.2)%nat.
Proof.
  induction remaining as [|r IH]; intros Hr; cbn zeta.
  - cbn [ApproveRoute.ensure_unique fst snd]. rewrite Nat.sub_0_r. reflexivity.
  - cbn [ApproveRoute.ensure_unique]. cbn zeta.
    set (i := (ApproveRoute.maxAttempts - S r)%nat) in *.
    destruct (data _); [|reflexivity].
    rewrite generate_candidate.
    assert (Hi : (ApproveRoute.maxAttempts - r)%nat = S i) by (subst i; lia).
    specialize (IH ltac:(lia)). cbn zeta in IH. rewrite Hi in IH. exact IH.
Qed.

End LoopDraws.

(** X16.  The uniqueness loop of an approval takes the first candidate that
    no look-up finds: the candidates before it were all found, it is not,
    and it is the [a]-th code generated when the loop leaves with [a]
    attempts.  Whether it finds one or gives up, it has then drawn
    [8 (a + 1)] random numbers. *)
Theorem uniqueness_loop_takes_first_free env st :
  let result := chosen env st in
  let a := result.1.2 in
  ((a < ApproveRoute.maxAttempts)%nat ->
   result.1.1 = candidate env a
   /\ ~ collides env st a
   /\ forall j, (j < a)%nat -> collides env st j)
  /\ (a = ApproveRoute.maxAttempts <->
      forall j, (j < ApproveRoute.maxAttempts)%nat -> collides env st j)
  /\ result.2 = (8 * (a + 1))%nat.
Proof.
  cbn zeta. rewrite chosen_eq.
  pose proof (ensure_unique_spec env st ApproveRoute.maxAttempts ltac:(lia)) as H.
  pose proof (ensure_unique_draws env st ApproveRoute.maxAttempts ltac:(lia)) as Hk.
  cbn zeta in H, Hk. rewrite Nat.sub_diag in H, Hk.
  change (8 * 1)%nat with 8%nat in H, Hk.
  split; [|split].
  - intros Ha. destruct H as [[Hmax _]|(_ & Hc & Hfree & Hall)]; [lia|].
    repeat split; try assumption. intros j Hj. apply Hall. lia.
  - destruct H as [[Hmax Hall]|(Hlt & _ & Hfree & _)].
    + split; [intros _ j Hj; apply Hall; lia | done].
    + split; [lia|]. intros Hall. exfalso. apply Hfree, Hall. lia.
  - rewrite Hk. lia.
Qed.

Section CodeSpace.

Lemma string_app_length (a b : string) :
  String.length (a ++ b) = (String.length a + String.length b)%nat.
Proof.
  induction a as [|x a IH]; [reflexivity|].
  change (S (String.length (a ++ b)) = S (String.length a + String.length b)).
  by rewrite IH.
Qed.

Lemma string_app_inj (a b x y : string) :
  String.length a = String.length b -> a ++ x = b ++ y -> a = b /\ x = y.
Proof.
  revert b. induction a as [|c a IH]; intros [|d b] Hlen; try discriminate.
  - auto.
  - change (String c (a ++ x) = String d (b ++ y) -> String c a = String d b /\ x = y).
    intros [= -> H]. injection Hlen as Hlen. destruct (IH b Hlen H) as [-> ->]. auto.
Qed.

(** Distinct indices of the alphabet give distinct symbols. *)
Lemma charAt_injective i j :
  0 <= i < 32 -> 0 <= j < 32 ->
  Js.charAt ApproveRoute.chars i = Js.charAt ApproveRoute.chars j -> i = j.
Proof.
  intros Hi Hj.
  assert (H : forallb (fun n => forallb (fun m =>
                implb (String.eqb (Js.charAt ApproveRoute.chars (Z.of_nat n))
                                  (Js.charAt ApproveRoute.chars (Z.of_nat m)))
                      (Nat.eqb n m)) (seq 0 32)) (seq 0 32) = true)
    by (vm_compute; reflexivity).
  rewrite forallb_forall in H. specialize (H (Z.to_nat i) ltac:(apply in_seq; lia)).
  rewrite forallb_forall in H. specialize (H (Z.to_nat j) ltac:(apply in_seq; lia)).
  rewrite !Z2Nat.id in H by lia. intros Heq. rewrite Heq, String.eqb_refl in H.
  apply Nat.eqb_eq in H. lia.
Qed.

Lemma charAt_length k :
  0 <= k < 32 -> String.length (Js.charAt ApproveRoute.chars k) = 1%nat.
Proof. intros Hk. destruct (charAt_alphabet k Hk) as (c & -> & _). reflexivity. Qed.

Lemma append_chars_equal n r1 r2 :
  unit_interval r1 -> unit_interval r2 ->
  forall code1 code2 k1 k2,
    String.length code1 = String.length code2 ->
    ((ApproveRoute.append_random_chars n r1 code1 k1).1
     = (ApproveRoute.append_random_chars n r2 code2 k2).1
     <-> code1 = code2
         /\ forall i, (i < n)%nat -> index_at r1 (k1 + i) = index_at r2 (k2 + i)).
Proof.
  intros H1 H2. induction n as [|n IH]; intros code1 code2 k1 k2 Hlen;
    cbn [ApproveRoute.append_random_chars].
  - cbn [fst]. split; [intros ->; split; [reflexivity | lia] | by intros [-> _]].
  - change (Z.of_nat (String.length ApproveRoute.chars)) with 32.
    fold (index_at r1 k1). fold (index_at r2 k2).
    assert (Hi1 : 0 <= index_at r1 k1 < 32) by (apply index_in_range; apply H1).
    assert (Hi2 : 0 <= index_at r2 k2 < 32) by (apply index_in_range; apply H2).
    rewrite IH by (rewrite !string_app_length, !charAt_length by done; lia).
    split.
    + intros [Happ Hall]. apply string_app_inj in Happ as [-> Hch]; [|exact Hlen].
      apply charAt_injective in Hch; [|done..].
      split; [reflexivity|]. intros [|i] Hi.
      * by rewrite !Nat.add_0_r.
      * specialize (Hall i ltac:(lia)).
        by replace (k1 + S i)%nat with (S k1 + i)%nat by lia;
           replace (k2 + S i)%nat with (S k2 + i)%nat by lia.
    + intros [-> Hall]. split.
      * specialize (Hall 0%nat ltac:(lia)). rewrite !Nat.add_0_r in Hall. by rewrite Hall.
      * intros i Hi. specialize (Hall (S i) ltac:(lia)).
        by replace (k1 + S i)%nat with (S k1 + i)%nat in Hall by lia;
           replace (k2 + S i)%nat with (S k2 + i)%nat in Hall by lia.
Qed.

End CodeSpace.

(** X17.  With [Math.random()] in the unit interval, two generated codes
    are equal exactly when the eight indices they were drawn with are
    equal, position by position: the generator maps each of the [32^8]
    sequences of indices to a code of its own. *)
Theorem invite_codes_equal_iff r1 r2 k1 k2 :
  unit_interval r1 -> unit_interval r2 ->
  ((ApproveRoute.generateInviteCode r1 k1).1 = (ApproveRoute.generateInviteCode r2 k2).1
   <-> forall i, (i < 8)%nat -> index_at r1 (k1 + i) = index_at r2 (k2 + i)).
Proof.
  intros H1 H2. unfold ApproveRoute.generateInviteCode.
  pose proof (append_chars_equal 8 r1 r2 H1 H2 "" "" k1 k2 eq_refl) as H.
  destruct (ApproveRoute.append_random_chars 8 r1 "" k1) as [c1 n1].
  destruct (ApproveRoute.append_random_chars 8 r2 "" k2) as [c2 n2].
  cbn [fst] in *. split.
  - intros [= Hc]. by apply H.
  - intros Hall. destruct H as [_ H]. by rewrite H.
Qed.

Lemma invite_codes_equal_iff_witness :
  (ApproveRoute.generateInviteCode (fun _ => (1 # 2)%Q) 0).1
  = (ApproveRoute.generateInviteCode (fun _ => (33 # 64)%Q) 8).1.
Proof.
  apply (invite_codes_equal_iff (fun _ => (1 # 2)%Q) (fun _ => (33 # 64)%Q)).
  - intros k. split; reflexivity || discriminate.
  - intros k. split; reflexivity || discriminate.
  - intros i _. reflexivity.
Defined.

(* ===================================================================== *)
(** ** What every run keeps *)
(* ===================================================================== *)

Section Steps.

(** The store after an operation: unchanged, with one more request, or
    with one more invite code and possibly the request approved. *)
Lemma perform_cases op st :
  (perform op st).2 = st
  \/ (exists r, FoundersRequest.status r = "pending" /\ (perform op st).2 = with_request st r)
  \/ (exists env rid req c e,
        founders_requests st !! rid = Some req
        /\ FoundersRequest.status req = "pending"
        /\ (perform op st).2 = after_approval env st rid req c e).
Proof.
  destruct op as [env raw|env raw]; cbn [perform].
  - destruct (intake_accepted_or_refused env raw st)
      as [(b & fn & e & ph & pr & -> & Hacc)|[-> _]]; [|by left].
    right. left. rewrite (intake_accepted _ _ _ _ _ _ _ Hacc). cbn [snd].
    eexists. split; [|reflexivity]. reflexivity.
  - destruct (approval_declined_or_done env raw st) as [->|(c & e & m & Hout)]; [by left|].
    apply approval_inversion in Hout as (rid & req & _ & _ & Hr & Hp & _ & _ & _ & ->).
    right. right. by exists env, rid, req, c, e.
Qed.

Lemma set_status_phone s r :
  FoundersRequest.phone (set_status s r) = FoundersRequest.phone r.
Proof. by destruct r. Qed.

Lemma same_or_approved_trans r1 r2 r3 :
  same_or_approved r1 r2 -> same_or_approved r2 r3 -> same_or_approved r1 r3.
Proof.
  intros [->|[Hp ->]] [->|[Hp' ->]]; try (by left); try (by right).
  rewrite set_status_status in Hp'. discriminate.
Qed.

Lemma perform_keeps_requests op st i r :
  founders_requests st !! i = Some r ->
  exists r', founders_requests (perform op st).2 !! i = Some r' /\ same_or_approved r r'.
Proof.
  intros Hr.
  destruct (perform_cases op st)
    as [->|[(x & _ & ->)|(env & rid & req & c & e & Hreq & Hp & ->)]].
  - exists r. split; [exact Hr | by left].
  - exists r. split; [|by left]. cbn [with_request founders_requests].
    rewrite lookup_insert_ne; [exact Hr|]. intros <-. rewrite next_id_fresh in Hr. discriminate.
  - rewrite after_approval_requests. destruct (ApproveRoute.update_fails env).
    + exists r. split; [exact Hr | by left].
    + destruct (decide (rid = i)) as [->|Hne].
      * exists (set_status "approved" r). rewrite lookup_alter_eq, Hr.
        split; [reflexivity|]. right. split; [congruence | reflexivity].
      * exists r. rewrite lookup_alter_ne by done. split; [exact Hr | by left].
Qed.

Lemma perform_keeps_code_rows op st k c :
  founders_invite_codes st !! k = Some c ->
  founders_invite_codes (perform op st).2 !! k = Some c.
Proof.
  intros Hc.
  destruct (perform_cases op st)
    as [->|[(x & _ & ->)|(env & rid & req & c' & e & Hreq & Hp & ->)]]; try done.
  rewrite after_approval_codes, lookup_insert_ne; [exact Hc|].
  intros <-. rewrite next_id_fresh in Hc. discriminate.
Qed.

Lemma perform_keeps_statuses_known op st :
  statuses_known st -> statuses_known (perform op st).2.
Proof.
  intros Hknown.
  destruct (perform_cases op st)
    as [->|[(x & Hx & ->)|(env & rid & req & c' & e & Hreq & Hp & ->)]]; [done|..].
  - intros i r. cbn [with_request founders_requests].
    intros [[_ <-]|[_ Hr]]%lookup_insert_Some; [by left | by apply (Hknown i)].
  - intros i r. rewrite after_approval_requests.
    destruct (ApproveRoute.update_fails env); [apply Hknown|].
    destruct (decide (rid = i)) as [->|Hne].
    + rewrite lookup_alter_eq, Hreq. intros [= <-]. right. apply set_status_status.
    + rewrite lookup_alter_ne by done. apply Hknown.
Qed.

Lemma perform_keeps_codes_refer op st :
  codes_refer st -> codes_refer (perform op st).2.
Proof.
  intros Href k c Hc.
  assert (Hold : forall r, founders_requests st !! InviteCode.request_id c = Some r ->
                  FoundersRequest.email r = InviteCode.email c ->
                  FoundersRequest.phone r = InviteCode.phone c ->
                  exists r', founders_requests (perform op st).2 !! InviteCode.request_id c
                             = Some r'
                             /\ FoundersRequest.email r' = InviteCode.email c
                             /\ FoundersRequest.phone r' = InviteCode.phone c).
  { intros r Hr He Hph.
    destruct (perform_keeps_requests op st _ r Hr) as (r' & Hr' & [->|[_ ->]]).
    - by exists r.
    - exists (set_status "approved" r). by rewrite set_status_email, set_status_phone. }
  destruct (perform_cases op st)
    as [Hst|[(x & _ & Hst)|(env & rid & req & c' & e & Hreq & Hp & Hst)]].
  - rewrite Hst in Hc. destruct (Href k c Hc) as (r & Hr & He & Hph). by apply (Hold r).
  - rewrite Hst in Hc. destruct (Href k c Hc) as (r & Hr & He & Hph). by apply (Hold r).
  - rewrite Hst, after_approval_codes in Hc.
    apply lookup_insert_Some in Hc as [[_ <-]|[_ Hc]].
    + cbn [new_code InviteCode.request_id InviteCode.email InviteCode.phone].
      destruct (perform_keeps_requests op st _ req Hreq) as (r' & Hr' & [->|[_ ->]]).
      * by exists req.
      * exists (set_status "approved" req). by rewrite set_status_email, set_status_phone.
    + destruct (Href k c Hc) as (r & Hr & He & Hph). by apply (Hold r).
Qed.

Lemma perform_keeps_approved_have_codes op st :
  approved_have_codes st -> approved_have_codes (perform op st).2.
Proof.
  intros Hhave i r Hr Happ.
  assert (Hold : forall r0, founders_requests st !! i = Some r0 ->
                  FoundersRequest.status r0 = "approved" ->
                  exists k c, founders_invite_codes (perform op st).2 !! k = Some c
                              /\ InviteCode.request_id c = i).
  { intros r0 Hr0 Ha0. destruct (Hhave i r0 Hr0 Ha0) as (k & c & Hc & Hid).
    exists k, c. split; [by apply perform_keeps_code_rows | exact Hid]. }
  destruct (perform_cases op st)
    as [Hst|[(x & Hx & Hst)|(env & rid & req & c' & e & Hreq & Hp & Hst)]].
  - rewrite Hst in Hr. by apply (Hold r).
  - rewrite Hst in Hr. cbn [with_request founders_requests] in Hr.
    apply lookup_insert_Some in Hr as [[_ <-]|[_ Hr]]; [congruence | by apply (Hold r)].
  - destruct (decide (rid = i)) as [->|Hne].
    + exists (next_id (founders_invite_codes st)), (new_code i req c' e).
      rewrite Hst, after_approval_codes, lookup_insert_eq. done.
    + rewrite Hst, after_approval_requests in Hr.
      destruct (ApproveRoute.update_fails env); [by apply (Hold r)|].
      rewrite lookup_alter_ne in Hr by done. by apply (Hold r).
Qed.

End Steps.

(** X18.  Nothing is ever deleted or rewritten.  Through any run of intakes
    and approvals a stored request keeps its key and all its fields, except
    that its status may move from pending to approved, and a stored invite
    code stays exactly as it is. *)
Theorem run_keeps_history ops st :
  (forall i r, founders_requests st !! i = Some r ->
     exists r', founders_requests (run ops st) !! i = Some r' /\ same_or_approved r r')
  /\ (forall k c, founders_invite_codes st !! k = Some c ->
        founders_invite_codes (run ops st) !! k = Some c).
Proof.
  revert st. induction ops as [|op ops IH]; intros st.
  - split; [|done]. intros i r Hr. exists r. split; [exact Hr | by left].
  - cbn [run]. destruct (IH (perform op st).2) as [IHr IHc]. split.
    + intros i r Hr.
      destruct (perform_keeps_requests op st i r Hr) as (r1 & Hr1 & H1).
      destruct (IHr i r1 Hr1) as (r2 & Hr2 & H2).
      exists r2. split; [exact Hr2 | by apply (same_or_approved_trans r r1 r2)].
    + intros k c Hc. by apply IHc, perform_keeps_code_rows.
Qed.

(** X19.  The two states of the data model are kept: if every stored
    request is pending or approved, so is every stored request after any
    run of intakes and approvals. *)
Theorem run_keeps_statuses_known ops st :
  statuses_known st -> statuses_known (run ops st).
Proof.
  revert st. induction ops as [|op ops IH]; intros st Hknown; [exact Hknown|].
  cbn [run]. by apply IH, perform_keeps_statuses_known.
Qed.

(** X20.  Invite codes stay attached to their requests: if every invite
    code points to a stored request and carries that request's address and
    phone, the same holds after any run of intakes and approvals. *)
Theorem run_keeps_codes_refer ops st :
  codes_refer st -> codes_refer (run ops st).
Proof.
  revert st. induction ops as [|op ops IH]; intros st Href; [exact Href|].
  cbn [run]. by apply IH, perform_keeps_codes_refer.
Qed.

(** X21.  A request is never marked approved without a code: if every
    approved request has an invite code, the same holds after any run of
    intakes and approvals, whichever calls to the store fail. *)
Theorem run_keeps_approved_have_codes ops st :
  approved_have_codes st -> approved_have_codes (run ops st).
Proof.
  revert st. induction ops as [|op ops IH]; intros st Hhave; [exact Hhave|].
  cbn [run]. by apply IH, perform_keeps_approved_have_codes.
Qed.

Section EmptyStore.

Lemma empty_store_statuses_known : statuses_known empty_store.
Proof. intros i r H. cbn in H. rewrite lookup_empty in H. discriminate. Qed.

Lemma empty_store_codes_refer : codes_refer empty_store.
Proof. intros k c H. cbn in H. rewrite lookup_empty in H. discriminate. Qed.

Lemma empty_store_approved_have_codes : approved_have_codes empty_store.
Proof. intros i r H. cbn in H. rewrite lookup_empty in H. discriminate. Qed.

End EmptyStore.

Lemma run_keeps_statuses_known_witness :
  statuses_known
    (run [Intake Sample.calm_intake (Some Sample.jane);
          Approval Sample.calm_approval Sample.approve_1] empty_store).
Proof. exact (run_keeps_statuses_known _ _ empty_store_statuses_known). Defined.

Lemma run_keeps_codes_refer_witness :
  codes_refer
    (run [Intake Sample.calm_intake (Some Sample.jane);
          Approval Sample.calm_approval Sample.approve_1] empty_store).
Proof. exact (run_keeps_codes_refer _ _ empty_store_codes_refer). Defined.

Lemma run_keeps_approved_have_codes_witness :
  approved_have_codes
    (run [Intake Sample.calm_intake (Some Sample.jane);
          Approval Sample.calm_approval Sample.approve_1] empty_store).
Proof. exact (run_keeps_approved_have_codes _ _ empty_store_approved_have_codes). Defined.

(* ===================================================================== *)
(** ** The workflow end to end *)
(* ===================================================================== *)

Section Workflow.





End Workflow.



(* ===================================================================== *)
(** ** The expiry across a change of offset; the address pattern *)
(* ===================================================================== *)

(** X23.  In a zone that changes its offset once, the expiry an approval
    computes is 72 hours after the call unless the change falls between
    the call and the local time 72 hours later; then it is off by the size
    of the change (an hour less when clocks go forward by an hour, an hour
    more when they go back). *)
Theorem expiry_in_shifting_zone env change before after :
  ApproveRoute.zone env = Date.shifting_zone change before after ->
  Z.abs (before - after) <= 72 * Date.msPerHour ->
  let now := ApproveRoute.now env in
  expiry env =
  Date.TimeClip
    (if (now <? change)%Z
        && (change + Z.max before after <=? now + before + 72 * Date.msPerHour)%Z
     then now + 72 * Date.msPerHour + (before - after)
     else now + 72 * Date.msPerHour).
Proof.
  intros Hz Hsmall. cbn zeta. rewrite expiry_eq, Hz.
  unfold Date.UTC, Date.LocalTime, Date.shifting_zone.
  cbn [Date.offset_at_utc Date.offset_at_local].
  f_equal.
  destruct (Z.ltb_spec (ApproveRoute.now env) change);
    destruct (Z.leb_spec (change + Z.max before after)
                (ApproveRoute.now env + before + 72 * Date.msPerHour));
    cbn [andb];
    match goal with
    | |- context [(?a <? ?b)%Z] => destruct (Z.ltb_spec a b)
    end; lia.
Qed.

Lemma expiry_in_shifting_zone_witness :
  let env := {| ApproveRoute.fetch_fails := false;
                ApproveRoute.random := fun _ => 0%Q;
                ApproveRoute.lookup_fails := fun _ => false;
                ApproveRoute.now := Sample.saturday_noon;
                ApproveRoute.zone := Sample.new_york;
                ApproveRoute.insert_fails := false;
                ApproveRoute.update_fails := false;
                ApproveRoute.mail := ApproveRoute.Delivered |} in
  expiry env = Some (Sample.saturday_noon + 71 * Date.msPerHour).
Proof.
  cbn zeta.
  rewrite (expiry_in_shifting_zone _ 1772953200000 (-5 * Date.msPerHour) (-4 * Date.msPerHour));
    [reflexivity | reflexivity | vm_compute; discriminate].
Defined.

Section RegexFacts.

Lemma string_app_empty_inv (a b : string) : a ++ b = "" -> a = "" /\ b = "".
Proof. destruct a; [auto | discriminate]. Qed.

Lemma lang_nullable r : lang r "" <-> Js.nullable r = true.
Proof.
  split.
  - remember "" as s eqn:Hs. intros H. induction H; cbn [Js.nullable]; try done.
    + apply string_app_empty_inv in Hs as [-> ->]. by rewrite IHlang1, IHlang2.
    + by rewrite IHlang.
    + rewrite IHlang by done. apply orb_true_r.
  - induction r; cbn [Js.nullable]; try discriminate.
    + constructor.
    + intros [H1 H2]%andb_prop. apply (lang_cat _ _ "" ""); auto.
    + intros [H|H]%orb_prop; [apply lang_alt_l | apply lang_alt_r]; auto.
    + constructor.
Qed.

Lemma lang_deriv_sound c r : forall s, lang (Js.deriv c r) s -> lang r (String c s).
Proof.
  induction r; intros s; cbn [Js.deriv]; intros H.
  - inversion H.
  - inversion H.
  - destruct (p c) eqn:Hp; inversion H; subst. by constructor.
  - assert (Hcat : lang (Js.Cat (Js.deriv c r1) r2) s -> lang (Js.Cat r1 r2) (String c s)).
    { intros Hc. inversion Hc; subst.
      apply (lang_cat r1 r2 (String c s1) s2); auto. }
    destruct (Js.nullable r1) eqn:Hn; [|by apply Hcat].
    inversion H; subst; [by apply Hcat|].
    apply (lang_cat r1 r2 "" (String c s)); [by apply lang_nullable | auto].
  - inversion H; subst; [apply lang_alt_l | apply lang_alt_r]; auto.
  - inversion H; subst. apply (lang_star_cons r (String c s1) s2); auto.
Qed.

Lemma lang_deriv_complete c r s' :
  lang r s' -> forall s0, s' = String c s0 -> lang (Js.deriv c r) s0.
Proof.
  intros H. induction H as [|p d Hp|r1 r2 s1 s2 H1 IH1 H2 IH2|r1 r2 s H IH|r1 r2 s H IH
                            |r|r s1 s2 H1 IH1 H2 IH2];
    intros s0 Hs; cbn [Js.deriv]; try discriminate.
  - injection Hs as -> <-. rewrite Hp. constructor.
  - destruct s1 as [|d s1].
    + change ("" ++ s2) with s2 in Hs. subst s2.
      apply lang_nullable in H1. rewrite H1. apply lang_alt_r. by apply IH2.
    + change (String d s1 ++ s2) with (String d (s1 ++ s2)) in Hs. injection Hs as -> <-.
      assert (Hc : lang (Js.Cat (Js.deriv c r1) r2) (s1 ++ s2))
        by (apply lang_cat; [by apply IH1 | done]).
      destruct (Js.nullable r1); [by apply lang_alt_l | done].
  - apply lang_alt_l. by apply IH.
  - apply lang_alt_r. by apply IH.
  - destruct s1 as [|d s1].
    + change ("" ++ s2) with s2 in Hs. by apply IH2.
    + change (String d s1 ++ s2) with (String d (s1 ++ s2)) in Hs. injection Hs as -> <-.
      apply lang_cat; [by apply IH1 | done].
Qed.

Lemma lang_class_inv p s : lang (Js.Class p) s -> exists c, s = String c "" /\ p c = true.
Proof. intros H. inversion H; subst. eauto. Qed.

Lemma lang_star_class p r s :
  lang r s -> r = Js.Star (Js.Class p) -> Js.allChars p s = true.
Proof.
  intros H. induction H as [| | | | |r|r s1 s2 H1 _ H2 IH2]; try discriminate;
    intros [= ->]; [reflexivity|].
  apply lang_class_inv in H1 as (c & -> & Hc).
  change (String c "" ++ s2) with (String c s2). cbn [Js.allChars].
  rewrite Hc. by apply IH2.
Qed.

Lemma lang_plus_class p s :
  lang (Js.Plus (Js.Class p)) s <-> s <> "" /\ Js.allChars p s = true.
Proof.
  assert (Hstar : forall s, Js.allChars p s = true -> lang (Js.Star (Js.Class p)) s).
  { clear s. induction s as [|c s IH]; cbn [Js.allChars]; [constructor|].
    intros [Hc Hs]%andb_prop.
    apply (lang_star_cons (Js.Class p) (String c "") s); [by constructor | auto]. }
  unfold Js.Plus. split.
  - intros H. inversion H as [| |? ? s1 s2 H1 H2| | | |]; subst.
    apply lang_class_inv in H1 as (c & -> & Hc).
    change (String c "" ++ s2) with (String c s2). split; [discriminate|].
    cbn [Js.allChars]. rewrite Hc. by apply (lang_star_class p _ _ H2).
  - intros [Hne Hall]. destruct s as [|c s]; [done|]. cbn [Js.allChars] in Hall.
    apply andb_prop in Hall as [Hc Hs].
    apply (lang_cat (Js.Class p) _ (String c "") s); [by constructor | auto].
Qed.

Lemma lang_chr c s : lang (Js.Chr c) s <-> s = String c "".
Proof.
  unfold Js.Chr. split.
  - intros (d & -> & ->%Ascii.eqb_eq)%lang_class_inv. reflexivity.
  - intros ->. constructor. apply Ascii.eqb_refl.
Qed.

End RegexFacts.

(** X24.  The matcher decides the language of the expression, and the
    address check of the intake accepts exactly the strings
    [local@domain.tld] whose three parts are non-empty and free of white
    space and [@]. *)
Theorem email_pattern_accepts :
  (forall r s, Js.matches r s = true <-> lang r s)
  /\ forall s,
       Js.matches RequestRoute.emailRegex s = true <->
       exists l d t,
         s = l ++ "@" ++ d ++ "." ++ t
         /\ address_part l /\ address_part d /\ address_part t.
Proof.
  assert (Hm : forall s r, Js.matches r s = true <-> lang r s).
  { induction s as [|c s IH]; intros r; cbn [Js.matches].
    - symmetry. apply lang_nullable.
    - rewrite IH. split; [apply lang_deriv_sound|].
      intros H. by apply (lang_deriv_complete c r (String c s)). }
  split; [intros r s; apply Hm|].
  intros s. rewrite Hm. unfold RequestRoute.emailRegex, address_part. split.
  - intros H. inversion H as [| |? ? l s1 Hl H1| | | |]; subst.
    inversion H1 as [| |? ? a s2 Ha H2| | | |]; subst.
    inversion H2 as [| |? ? d s3 Hd H3| | | |]; subst.
    inversion H3 as [| |? ? o t Ho Ht| | | |]; subst.
    apply lang_chr in Ha as ->. apply lang_chr in Ho as ->.
    apply lang_plus_class in Hl, Hd, Ht. by exists l, d, t.
  - intros (l & d & t & -> & Hl & Hd & Ht).
    apply lang_plus_class in Hl, Hd, Ht.
    repeat (apply lang_cat; [by (assumption || apply lang_chr)|]). exact Ht.
Qed.

(* ===================================================================== *)
(** ** The request form against the intake *)
(* ===================================================================== *)

Section FormFacts.

(** A body without a name is refused before anything else is looked at. *)
Lemma intake_without_name env b st :
  RequestRoute.fullName b = JUndefined ->
  RequestRoute.POST env (Some b) st = (ValidationError_missing, st).
Proof.
  intros Hfn. unfold RequestRoute.POST, RequestRoute.POST_body, RequestRoute.request_json.
  monad_unfold. rewrite Hfn. reflexivity.
Qed.

Lemma posted_without_name fd :
  fd !! "fullName" = None ->
  RequestRoute.fullName (RequestAccessModal.posted fd) = JUndefined.
Proof. intros H. cbn. unfold RequestAccessModal.property. by rewrite H. Qed.

Lemma input_names_not_fullName name :
  name ∈ RequestAccessModal.input_names -> name <> "fullName".
Proof.
  unfold RequestAccessModal.input_names. intros H Heq. subst name.
  repeat (apply elem_of_cons in H as [H|H]; [discriminate|]).
  by apply elem_of_nil in H.
Qed.

Lemma react_keeps_nameless notify ev st w :
  RequestAccessModal.from_form ev ->
  nameless st w -> nameless st (RequestAccessModal.react notify ev w).
Proof.
  destruct w as [[s calls] st0]. intros Hev (Hfd & Hs & Hc & Hst).
  cbn [fst snd] in *. subst st0.
  destruct ev as [name value|net env|]; cbn [RequestAccessModal.react].
  - repeat split; cbn; try done.
    rewrite lookup_insert_ne; [exact Hfd|].
    by apply input_names_not_fullName.
  - unfold RequestAccessModal.handleSubmit. destruct net.
    + cbn. rewrite app_nil_r. done.
    + rewrite (intake_without_name env _ st (posted_without_name _ Hfd)).
      cbn. rewrite app_nil_r. done.
    + rewrite (intake_without_name env _ st (posted_without_name _ Hfd)).
      cbn. rewrite app_nil_r. done.
  - cbn. repeat split; try done.
    intros [H|H]%elem_of_app; [by apply Hc|].
    apply list_elem_of_singleton in H. discriminate.
Qed.

Lemma play_keeps_nameless notify evs st w :
  Forall RequestAccessModal.from_form evs ->
  nameless st w -> nameless st (RequestAccessModal.play notify evs w).
Proof.
  intros Hevs. revert w. induction Hevs as [|ev evs Hev _ IH]; intros w Hw; [exact Hw|].
  cbn. apply IH. by apply react_keeps_nameless.
Qed.

End FormFacts.

(** X25.  The form as written is always refused.  Its data has the
    properties [firstName] and [lastName] and never a [fullName], which the
    intake requires: whatever is typed into the inputs of the form, however
    often it is closed or submitted, the store stays as it was, the success
    view is never shown and [onSuccess] is never called; and a submission
    that reaches the server shows the message of the 400 answer for missing
    required fields. *)
Theorem form_is_always_refused notify evs st :
  Forall RequestAccessModal.from_form evs ->
  let w := RequestAccessModal.play notify evs (RequestAccessModal.initial, [], st) in
  w.2 = st
  /\ RequestAccessModal.success w.1.1 = false
  /\ (RequestAccessModal.onSuccess ∉ w.1.2)
  /\ forall env,
       RequestRoute.POST env (Some (RequestAccessModal.posted (RequestAccessModal.formData w.1.1))) st
       = (ValidationError_missing, st)
       /\ RequestAccessModal.handleSubmit notify RequestAccessModal.Delivered env w.1.1 st =
          ({| RequestAccessModal.formData := RequestAccessModal.formData w.1.1;
              RequestAccessModal.loading := false;
              RequestAccessModal.success := false;
              RequestAccessModal.error := "All required fields must be provided" |},
           [], st).
Proof.
  intros Hevs.
  assert (Hinv : nameless st
            (RequestAccessModal.play notify evs (RequestAccessModal.initial, [], st))).
  { apply play_keeps_nameless; [exact Hevs|].
    split; [reflexivity|]. split; [reflexivity|]. split; [apply not_elem_of_nil | reflexivity]. }
  destruct Hinv as (Hfd & Hs & Hc & Hst). cbv zeta.
  split; [exact Hst|]. split; [exact Hs|]. split; [exact Hc|].
  intros env.
  pose proof (intake_without_name env _ st (posted_without_name _ Hfd)) as HP.
  split; [exact HP|].
  unfold RequestAccessModal.handleSubmit. rewrite HP.
  cbn. rewrite Hs. reflexivity.
Qed.

Lemma form_is_always_refused_witness :
  let w := RequestAccessModal.play true
             [RequestAccessModal.Change "firstName" "Jane";
              RequestAccessModal.Change "lastName" "Doe";
              RequestAccessModal.Change "email" "JANE@X.COM";
              RequestAccessModal.Change "phone" "+1 555";
              RequestAccessModal.Change "profession" "Designer";
              RequestAccessModal.Submit RequestAccessModal.Delivered Sample.calm_intake]
             (RequestAccessModal.initial, [], empty_store) in
  w.2 = empty_store
  /\ RequestAccessModal.success w.1.1 = false
  /\ RequestAccessModal.error w.1.1 = "All required fields must be provided".
Proof.
  pose proof (form_is_always_refused true
    [RequestAccessModal.Change "firstName" "Jane";
     RequestAccessModal.Change "lastName" "Doe";
     RequestAccessModal.Change "email" "JANE@X.COM";
     RequestAccessModal.Change "phone" "+1 555";
     RequestAccessModal.Change "profession" "Designer";
     RequestAccessModal.Submit RequestAccessModal.Delivered Sample.calm_intake] empty_store) as H.
  cbv zeta in *.
  destruct H as (H1 & H2 & _ & _).
  { repeat constructor; unfold RequestAccessModal.from_form, RequestAccessModal.input_names;
      set_solver. }
  split; [exact H1|]. split; [exact H2|]. vm_compute. reflexivity.
Defined.

(** X26.  One submission of the form, whatever its data.  Afterwards the
    form is no longer loading and its data is as before.  The success view
    is shown exactly when the response arrived and the intake stored a row,
    and [onSuccess] is called exactly then, if it was given; when the
    success view is not shown, a message that is not empty is.  A request
    that does not reach the server leaves the store alone; one that the
    server handles but whose response is lost has the effect of the intake
    on the store, and the form shows the network error all the same. *)
Theorem form_shows_success_iff_stored notify net env s st :
  RequestAccessModal.success s = false ->
  let w := RequestAccessModal.handleSubmit notify net env s st in
  let served :=
    RequestRoute.POST env
      (Some (RequestAccessModal.posted (RequestAccessModal.formData s))) st in
  RequestAccessModal.loading w.1.1 = false
  /\ RequestAccessModal.formData w.1.1 = RequestAccessModal.formData s
  /\ (RequestAccessModal.success w.1.1 = true
      <-> net = RequestAccessModal.Delivered /\ w.2 <> st)
  /\ (RequestAccessModal.success w.1.1 = true -> RequestAccessModal.error w.1.1 = "")
  /\ (RequestAccessModal.success w.1.1 = false -> RequestAccessModal.error w.1.1 <> "")
  /\ (RequestAccessModal.onSuccess ∈ (w.1.2)
      <-> notify = true /\ RequestAccessModal.success w.1.1 = true)
  /\ (net = RequestAccessModal.Unreachable -> w.2 = st)
  /\ (net <> RequestAccessModal.Unreachable -> w.2 = served.2)
  /\ (net <> RequestAccessModal.Delivered ->
      RequestAccessModal.error w.1.1
      = "Network error. Please check your connection and try again.").
Proof.
  intros Hs. cbv zeta. unfold RequestAccessModal.handleSubmit.
  destruct net.
  - cbn. rewrite Hs.
    split; [reflexivity|]. split; [reflexivity|].
    split; [split; [discriminate | intros [Hf _]; discriminate]|].
    split; [discriminate|]. split; [discriminate|].
    split; [split; [intros Hin; by apply elem_of_nil in Hin | intros [_ Hf]; discriminate]|].
    split; [reflexivity|]. split; [intros Hf; by destruct Hf | reflexivity].
  - destruct (RequestRoute.POST env _ st) as [r st'] eqn:HP. cbn. rewrite Hs.
    split; [reflexivity|]. split; [reflexivity|].
    split; [split; [discriminate | intros [Hf _]; discriminate]|].
    split; [discriminate|]. split; [discriminate|].
    split; [split; [intros Hin; by apply elem_of_nil in Hin | intros [_ Hf]; discriminate]|].
    split; [discriminate|]. split; reflexivity.
  - destruct (intake_accepted_or_refused env
                (Some (RequestAccessModal.posted (RequestAccessModal.formData s))) st)
      as [(b & fn & e & ph & pr & Hb & Hacc)|[Hst Href]].
    + rewrite Hb, (intake_accepted _ _ _ _ _ _ _ Hacc). cbn.
      pose proof (with_request_changes st
        (new_request (RequestRoute.clock env) fn e ph pr (RequestRoute.note b))) as Hch.
      split; [reflexivity|]. split; [reflexivity|].
      split; [split; [intros _; split; [reflexivity | exact Hch] | reflexivity]|].
      split; [reflexivity|]. split; [discriminate|].
      split; [split; [|intros [-> _]; apply list_elem_of_singleton; reflexivity]|].
      { destruct notify; [done|]. intros Hin. by apply elem_of_nil in Hin. }
      split; [discriminate|]. split; [reflexivity | intros Hf; by destruct Hf].
    + destruct (RequestRoute.POST env _ st) as [r st'] eqn:HP. cbn [fst snd] in *. subst st'.
      unfold is_refusal in Href.
      destruct r as [[err| | | |] code]; cbn [body http_status] in *; try discriminate.
      apply andb_prop in Href as [Herr Hcode]. apply negb_true_iff in Herr.
      assert (Hok : RequestAccessModal.ok (json (Failure err) code) = false).
      { unfold RequestAccessModal.ok. cbn [http_status].
        apply orb_prop in Hcode as [->%Z.eqb_eq| ->%Z.eqb_eq]; reflexivity. }
      unfold RequestAccessModal.settle. rewrite Hok. cbn. rewrite Hs, Herr.
      apply String.eqb_neq in Herr.
      split; [reflexivity|]. split; [reflexivity|].
      split; [split; [discriminate | intros [_ Hne]; by destruct Hne]|].
      split; [discriminate|]. split; [intros _; exact Herr|].
      split; [split; [intros Hin; by apply elem_of_nil in Hin | intros [_ Hf]; discriminate]|].
      split; [discriminate|]. split; [reflexivity | intros Hf; by destruct Hf].
Qed.

(** A submission with a name: the server stores the row, the response is
    lost, and the form reports a network error. *)
Lemma form_shows_success_iff_stored_witness :
  let s := RequestAccessModal.handleChange "fullName" "Jane Doe"
             (RequestAccessModal.handleChange "email" "JANE@X.COM"
                (RequestAccessModal.handleChange "phone" "+1 555"
                   (RequestAccessModal.handleChange "profession" "Designer"
                      RequestAccessModal.initial))) in
  let w := RequestAccessModal.handleSubmit true RequestAccessModal.Lost
             Sample.calm_intake s empty_store in
  RequestAccessModal.success s = false
  /\ RequestAccessModal.loading w.1.1 = false
  /\ RequestAccessModal.error w.1.1
     = "Network error. Please check your connection and try again."
  /\ founders_requests w.2 !! 1%N = Some (Sample.jane_row "pending").
Proof.
  cbv zeta. split; [reflexivity|].
  pose proof (form_shows_success_iff_stored true RequestAccessModal.Lost Sample.calm_intake
                (RequestAccessModal.handleChange "fullName" "Jane Doe"
                   (RequestAccessModal.handleChange "email" "JANE@X.COM"
                      (RequestAccessModal.handleChange "phone" "+1 555"
                         (RequestAccessModal.handleChange "profession" "Designer"
                            RequestAccessModal.initial))))
                empty_store eq_refl) as H.
  cbv zeta in H. destruct H as (H1 & _ & _ & _ & _ & _ & _ & H8 & H9).
  split; [exact H1|]. split; [apply H9; discriminate|].
  rewrite (H8 ltac:(discriminate)). vm_compute. reflexivity.
Defined.
